(** * LoadBase: the codebase prompt generator (main.py)

    A shallow embedding of the pure and file-backed parts of [main.py]:
    the ignore-set store, the path filter, the directory walker, the
    two prompt serializers and the individual list loader.

    Conventions.
    - A Python [str] is a [string]; a character is an [ascii], read as a
      code point below 256.
    - A [pathlib.Path] on POSIX is its parsed form: a root and the list
      of its name components.
    - The file system and the terminal are explicit: a record of lookups
      for the former, the list of printed lines for the latter.
    - An uncaught exception is the [Raise] outcome of a [result]. *)

From Stdlib Require Import String Ascii List Bool Arith Lia DecimalString.
From stdpp Require Import base decidable list gmap strings sorting.

Import ListNotations.
Open Scope string_scope.

(** ** Python strings *)

Module Text.

(** The line feed and carriage return, as one-character constants. *)
Definition LF : ascii := "010"%char.
Definition CR : ascii := "013"%char.
Definition nl : string := String LF "".

(** [str.isspace] on one code point below 256: tab to carriage
    return, the four separators 0x1c-0x1f, space, NEL and the
    no-break space. *)
Definition isspace (c : ascii) : bool :=
  let n := nat_of_ascii c in
  (Nat.leb 9 n && Nat.leb n 13) || (Nat.leb 28 n && Nat.leb n 32)
  || Nat.eqb n 133 || Nat.eqb n 160.

(** [s.lstrip()] *)
Fixpoint lstrip (s : string) : string :=
  match s with
  | "" => ""
  | String c r => if isspace c then lstrip r else s
  end.

(** [s.rstrip()] *)
Fixpoint rstrip (s : string) : string :=
  match s with
  | "" => ""
  | String c r =>
      match rstrip r with
      | "" => if isspace c then "" else String c ""
      | r' => String c r'
      end
  end.

(** [s.strip()] *)
Definition strip (s : string) : string := rstrip (lstrip s).

(** Truth value of a string: [if s:] *)
Definition nonempty (s : string) : bool :=
  match s with "" => false | _ => true end.

(** [s.startswith(p)] *)
Fixpoint startswith (s p : string) {struct p} : bool :=
  match p with
  | "" => true
  | String a p' =>
      match s with
      | "" => false
      | String b s' => if Ascii.eqb a b then startswith s' p' else false
      end
  end.

(** [sep.join(l)] *)
Fixpoint join (sep : string) (l : list string) : string :=
  match l with
  | [] => ""
  | [x] => x
  | x :: rest => x ++ sep ++ join sep rest
  end.

(** [s.replace(old, new)] for a one-character [old]. *)
Fixpoint replace (old : ascii) (new : string) (s : string) : string :=
  match s with
  | "" => ""
  | String c r =>
      if Ascii.eqb c old then new ++ replace old new r
      else String c (replace old new r)
  end.

(** [s.split(sep)] for a one-character [sep]: never the empty list. *)
Fixpoint split (sep : ascii) (s : string) : list string :=
  match s with
  | "" => [""]
  | String c r =>
      if Ascii.eqb c sep then "" :: split sep r
      else match split sep r with
           | [] => [String c ""]
           | w :: ws => String c w :: ws
           end
  end.

(** Universal newlines on reading a text file: CR LF and a lone CR
    both become LF. *)
Fixpoint translate_newlines (s : string) : string :=
  match s with
  | "" => ""
  | String c r =>
      if Ascii.eqb c CR then
        match r with
        | String d r' =>
            if Ascii.eqb d LF then String LF (translate_newlines r')
            else String LF (translate_newlines r)
        | "" => String LF ""
        end
      else String c (translate_newlines r)
  end.

(** [for line in f]: the lines of a text, each with its terminator;
    the last one has none when the text does not end in a line feed. *)
Fixpoint readlines (s : string) : list string :=
  match s with
  | "" => []
  | String c r =>
      if Ascii.eqb c LF then String c "" :: readlines r
      else match readlines r with
           | [] => [String c ""]
           | l :: ls => String c l :: ls
           end
  end.

(** Occurrence of a character, and of a substring. *)
Fixpoint mem (c : ascii) (s : string) : bool :=
  match s with
  | "" => false
  | String d r => Ascii.eqb c d || mem c r
  end.


End Text.

Import Text.

(** ** Exceptions, outcomes and the terminal *)

(** The two exceptions the program meets: [ValueError] from
    [Path.relative_to], and a failure of [open] or of a read, with the
    text that [str(e)] renders. *)
Inductive exn : Type :=
| ValueError
| OSError (msg : string).

Inductive result (A : Type) : Type :=
| Ok (a : A)
| Raise (e : exn).
Arguments Ok {A} a.
Arguments Raise {A} e.

(** A computation that prints: the lines written to standard output, in
    order, and the outcome.  A raised exception keeps what was printed
    before it. *)
Definition IO (A : Type) : Type := (list string * result A)%type.

Definition ret {A} (a : A) : IO A := ([], Ok a).

Definition bind {A B} (m : IO A) (k : A -> IO B) : IO B :=
  match m with
  | (out, Ok a) => let (out', r) := k a in ((out ++ out')%list, r)
  | (out, Raise e) => (out, Raise e)
  end.

Definition print (line : string) : IO unit := ([line], Ok tt).

Definition lift {A} (r : result A) : IO A := ([], r).

Definition stdout {A} (m : IO A) : list string := fst m.
Definition outcome {A} (m : IO A) : result A := snd m.

Notation "x <- m ;; k" := (bind m (fun x => k))
  (at level 100, m at next level, right associativity).
Notation "m ;;; k" := (bind m (fun _ => k))
  (at level 100, right associativity).

(** ** pathlib on POSIX *)

Module Paths.

(** A parsed path: [root] is the empty string, one slash or two
    slashes; [tail] holds the name components. *)
Record Path : Type := mkPath { root : string; tail : list string }.

(** [posixpath.splitroot] *)
Definition splitroot (p : string) : string * string :=
  match p with
  | String "/" (String "/" (String "/" r)) => ("/", String "/" (String "/" r))
  | String "/" (String "/" r) => ("//", r)
  | String "/" r => ("/", r)
  | _ => ("", p)
  end.

(** [Path(s)]: split the root off, split at the slashes, drop the
    empty components and the dots. *)
Definition parse (s : string) : Path :=
  match s with
  | "" => mkPath "" []
  | _ =>
      let (rt, rel) := splitroot s in
      mkPath rt
        (List.filter (fun x => nonempty x && negb (String.eqb x "."))
           (split "/" rel))
  end.

(** [str(p)], which on POSIX is also [p.as_posix()]. *)
Definition str (p : Path) : string :=
  let s := root p ++ join "/" (tail p) in
  if nonempty s then s else ".".

Definition as_posix (p : Path) : string := str p.

(** [names[len(pre):]] when [pre] is a prefix of [names]. *)
Fixpoint strip_prefix (pre names : list string) {struct pre}
    : option (list string) :=
  match pre with
  | [] => Some names
  | a :: pre' =>
      match names with
      | [] => None
      | b :: names' =>
          if String.eqb a b then strip_prefix pre' names' else None
      end
  end.

(** [self.relative_to(other)]: the roots agree and the components of
    [other] start those of [self]; [ValueError] otherwise. *)
Definition relative_to (self other : Path) : result Path :=
  if String.eqb (root self) (root other) then
    match strip_prefix (tail other) (tail self) with
    | Some names => Ok (mkPath "" names)
    | None => Raise ValueError
    end
  else Raise ValueError.

(** [os.path.isabs(s)] *)
Definition isabs (s : string) : bool := startswith s "/".

End Paths.

Import Paths.

(** ** The file system *)

(** What the program observes of the file system.  Paths are the strings
    handed to the operating system.  [fs_data] is [open(p, 'r')]
    followed by decoding: the text as stored, or the message of the
    exception; a read succeeds or fails as a whole.  [fs_open_w] is
    [open(p, 'w')]: the message of the exception when it fails.
    [fs_resolve] is [Path.resolve] and [fs_rglob p] is the enumeration
    [p.rglob('*')]. *)
Record FS : Type := mkFS {
  fs_exists : string -> bool;
  fs_isfile : string -> bool;
  fs_data : string -> string + string;
  fs_open_w : string -> option string;
  fs_resolve : Path -> Path;
  fs_rglob : Path -> list Path
}.

(** [f.read()] in text mode: the stored text with universal newlines. *)
Definition read_text (fs : FS) (p : string) : string + string :=
  match fs_data fs p with
  | inl raw => inl (translate_newlines raw)
  | inr msg => inr msg
  end.

(** The file system once [text] has been written to [p]; on POSIX the
    line feed is written as it is. *)
Definition write_text (fs : FS) (p text : string) : FS :=
  {| fs_exists := fun q => if String.eqb q p then true else fs_exists fs q;
     fs_isfile := fun q => if String.eqb q p then true else fs_isfile fs q;
     fs_data := fun q => if String.eqb q p then inl text else fs_data fs q;
     fs_open_w := fs_open_w fs;
     fs_resolve := fs_resolve fs;
     fs_rglob := fs_rglob fs |}.

(** ** main.py *)

Definition IGNORE_FILE : string := "ignore_paths.txt".
Definition OUTPUT_FILE : string := "codebase_prompt.txt".
Definition INDIVIDUAL_FILES_SCRIPT : string := "individual_files.sh".
Definition TARGET_FILES_FILE : string := "target_files.txt".

(** The body of the [for line in f] loop of [load_ignore_paths]. *)
Definition add_line (ignore_set : gset string) (line : string) : gset string :=
  let line := strip line in
  if nonempty line then ignore_set ∪ {[ line ]} else ignore_set.

Definition load_ignore_paths (fs : FS) : result (gset string) :=
  let ignore_set : gset string := ∅ in
  if fs_exists fs IGNORE_FILE then
    match read_text fs IGNORE_FILE with
    | inl text => Ok (fold_left add_line (readlines text) ignore_set)
    | inr msg => Raise (OSError msg)
    end
  else Ok ignore_set.

(** [sorted(ignore_set)]: the elements in the order of [str]. *)
Definition sorted (ignore_set : gset string) : list string :=
  merge_sort String.le (elements ignore_set).

Definition save_ignore_paths (ignore_set : gset string) (fs : FS) : result FS :=
  match fs_open_w fs IGNORE_FILE with
  | Some msg => Raise (OSError msg)
  | None =>
      Ok (write_text fs IGNORE_FILE
            (fold_left (fun written path => written ++ (path ++ nl))
               (sorted ignore_set) ""))
  end.

(** The [for ignore in ignore_set] loop of [should_ignore]. *)
Fixpoint ignore_loop (abs_file rel_file : string) (patterns : list string) : bool :=
  match patterns with
  | [] => false
  | ignore :: rest =>
      if isabs ignore then
        if startswith abs_file ignore then true
        else ignore_loop abs_file rel_file rest
      else
        if startswith rel_file ignore then true
        else ignore_loop abs_file rel_file rest
  end.

Definition should_ignore (fs : FS) (file_path target_folder : Path)
    (ignore_set : gset string) : bool :=
  let abs_file := fs_resolve fs file_path in
  match relative_to file_path target_folder with
  | Raise _ => true
  | Ok rel =>
      let rel_file := as_posix rel in
      ignore_loop (str abs_file) rel_file (elements ignore_set)
  end.

(** The loop of [get_all_files] over the enumeration. *)
Fixpoint walk (fs : FS) (target_path : Path) (ignore_set : gset string)
    (found files_to_include : list Path) : list Path :=
  match found with
  | [] => files_to_include
  | file_path :: rest =>
      if fs_isfile fs (str file_path) then
        if negb (should_ignore fs file_path target_path ignore_set) then
          walk fs target_path ignore_set rest (files_to_include ++ [file_path])%list
        else walk fs target_path ignore_set rest files_to_include
      else walk fs target_path ignore_set rest files_to_include
  end.

Definition get_all_files (fs : FS) (target_folder : string)
    (ignore_set : gset string) : list Path :=
  let target_path := parse target_folder in
  walk fs target_path ignore_set (fs_rglob fs target_path) [].

(** The escaping of both serializers: [s.replace("'", "\\'")]. *)
Definition escape (s : string) : string := replace "'" "\'" s.

(** The f-string of an entry, from the escaped identifier and contents. *)
Definition entry (identifier_escaped contents_escaped : string) : string :=
  "'" ++ identifier_escaped ++ "' with '" ++ contents_escaped ++ "'".

Definition read_diagnostic (file_path : Path) (e : string) : string :=
  "Error reading " ++ str file_path ++ ": " ++ e.

(** The [for file_path in files] loop of [generate_prompt]. *)
Fixpoint bulk_loop (fs : FS) (target_path : Path) (files : list Path)
    (file_entries : list string) : IO (list string) :=
  match files with
  | [] => ret file_entries
  | file_path :: rest =>
      rel <- lift (relative_to file_path target_path) ;;
      let relative_path := as_posix rel in
      match read_text fs (str file_path) with
      | inr e =>
          print (read_diagnostic file_path e) ;;;
          bulk_loop fs target_path rest file_entries
      | inl contents =>
          if negb (nonempty (strip contents)) then
            bulk_loop fs target_path rest file_entries
          else
            let relative_path_escaped := escape relative_path in
            let contents_escaped := escape contents in
            let entry := entry relative_path_escaped contents_escaped in
            bulk_loop fs target_path rest (file_entries ++ [entry])%list
      end
  end.

Definition generate_prompt (fs : FS) (target_folder : string)
    (files : list Path) : IO string :=
  let prompt_lines := ([] ++ ["My codebase includes"])%list in
  let target_path := parse target_folder in
  file_entries <- bulk_loop fs target_path files [] ;;
  let prompt_body := join ("," ++ nl) file_entries in
  let prompt_lines := (prompt_lines ++ [prompt_body])%list in
  let prompt_lines := (prompt_lines ++ ["."])%list in
  ret (join nl prompt_lines).

(** The [for file_path in files] loop of [generate_prompt_individual]. *)
Fixpoint individual_loop (fs : FS) (files : list Path)
    (file_entries : list string) : IO (list string) :=
  match files with
  | [] => ret file_entries
  | file_path :: rest =>
      match read_text fs (str file_path) with
      | inr e =>
          print (read_diagnostic file_path e) ;;;
          individual_loop fs rest file_entries
      | inl contents =>
          if negb (nonempty (strip contents)) then
            individual_loop fs rest file_entries
          else
            let file_identifier := str file_path in
            let file_identifier_escaped := escape file_identifier in
            let contents_escaped := escape contents in
            let entry := entry file_identifier_escaped contents_escaped in
            individual_loop fs rest (file_entries ++ [entry])%list
      end
  end.

Definition generate_prompt_individual (fs : FS) (files : list Path) : IO string :=
  let prompt_lines := ([] ++ ["My codebase includes"])%list in
  file_entries <- individual_loop fs files [] ;;
  let prompt_body := join ("," ++ nl) file_entries in
  let prompt_lines := (prompt_lines ++ [prompt_body])%list in
  let prompt_lines := (prompt_lines ++ ["."])%list in
  ret (join nl prompt_lines).

(** [str(n)] for a natural number. *)
Definition str_of_nat (n : nat) : string :=
  NilEmpty.string_of_uint (Nat.to_uint n).

Definition invalid_warning (file_path source : string) : string :=
  "Warning: '" ++ file_path ++ "' from '" ++ source ++ "' is not a valid file. Skipping.".

Definition loaded_notice (n : nat) (source : string) : string :=
  "Loaded " ++ str_of_nat n ++ " file paths from '" ++ source ++ "'.".

Definition no_valid_notice (source : string) : string :=
  "'" ++ source ++ "' exists but contains no valid file paths.".

(** The loop over the lines of [target_files.txt]. *)
Fixpoint target_loop (fs : FS) (lines : list string) (file_paths : list Path)
    : IO (list Path) :=
  match lines with
  | [] => ret file_paths
  | line :: rest =>
      let file_path := strip line in
      if nonempty file_path then
        if fs_isfile fs file_path then
          target_loop fs rest (file_paths ++ [parse file_path])%list
        else
          print (invalid_warning file_path TARGET_FILES_FILE) ;;;
          target_loop fs rest file_paths
      else target_loop fs rest file_paths
  end.

(** The loop over the lines of [individual_files.sh]. *)
Fixpoint script_loop (fs : FS) (lines : list string) (file_paths : list Path)
    : IO (list Path) :=
  match lines with
  | [] => ret file_paths
  | line :: rest =>
      let line := strip line in
      if startswith line "#" || negb (nonempty line) then
        script_loop fs rest file_paths
      else if fs_isfile fs line then
        script_loop fs rest (file_paths ++ [parse line])%list
      else
        print (invalid_warning line INDIVIDUAL_FILES_SCRIPT) ;;;
        script_loop fs rest file_paths
  end.

(** [with open(p, 'r') as f] and the lines that [for line in f] goes
    through, or the exception of [open].  A read fails here as a whole,
    before the first line: a file that cannot be opened.  A failure
    part-way through the file, which the code meets after it has
    handled the lines before, is not in the file system record; the
    statements on the loader that say what is printed are for sources
    that can be read. *)
Definition open_lines (fs : FS) (p : string) : IO (list string) :=
  match read_text fs p with
  | inl text => ret (readlines text)
  | inr msg => lift (Raise (OSError msg))
  end.

Definition no_paths_notice : string :=
  "No valid file paths could be loaded from either target file.".

(** The second half of [load_individual_files_from_file]: the fallback
    to the script, entered with the paths collected so far. *)
Definition load_from_script (fs : FS) (file_paths : list Path)
    : IO (option (list Path)) :=
  if fs_exists fs INDIVIDUAL_FILES_SCRIPT then
    lines <- open_lines fs INDIVIDUAL_FILES_SCRIPT ;;
    file_paths <- script_loop fs lines file_paths ;;
    match file_paths with
    | _ :: _ =>
        print (loaded_notice (length file_paths) INDIVIDUAL_FILES_SCRIPT) ;;;
        ret (Some file_paths)
    | [] =>
        print (no_valid_notice INDIVIDUAL_FILES_SCRIPT) ;;;
        print no_paths_notice ;;;
        ret None
    end
  else
    print no_paths_notice ;;;
    ret None.

Definition load_individual_files_from_file (fs : FS) : IO (option (list Path)) :=
  let file_paths : list Path := [] in
  if fs_exists fs TARGET_FILES_FILE then
    lines <- open_lines fs TARGET_FILES_FILE ;;
    file_paths <- target_loop fs lines file_paths ;;
    match file_paths with
    | _ :: _ =>
        print (loaded_notice (length file_paths) TARGET_FILES_FILE) ;;;
        ret (Some file_paths)
    | [] =>
        print (no_valid_notice TARGET_FILES_FILE) ;;;
        load_from_script fs file_paths
    end
  else load_from_script fs file_paths.

(** ** Vocabulary of the statements *)

(** [file_path] lies under [target_path]: its relative path exists. *)
Definition under (target_path file_path : Path) : Prop :=
  exists rel, relative_to file_path target_path = Ok rel.

(** The display identifier of bulk mode: the root-relative posix path. *)
Definition bulk_identifier (target_path file_path : Path) : result string :=
  match relative_to file_path target_path with
  | Ok rel => Ok (as_posix rel)
  | Raise e => Raise e
  end.

(** A file whose text, once stripped, is empty. *)
Definition blank (fs : FS) (file_path : Path) : bool :=
  match read_text fs (str file_path) with
  | inl contents => negb (nonempty (strip contents))
  | inr _ => false
  end.

(** A file that can be read and is not blank: it survives into the
    prompt document. *)
Definition survives (fs : FS) (file_path : Path) : bool :=
  match read_text fs (str file_path) with
  | inl contents => nonempty (strip contents)
  | inr _ => false
  end.

(** The diagnostic a file gives rise to, if its read fails. *)
Definition diagnostic_of (fs : FS) (file_path : Path) : option string :=
  match read_text fs (str file_path) with
  | inl _ => None
  | inr e => Some (read_diagnostic file_path e)
  end.

(** The entry a file gives rise to under the identifier [ident], if it
    survives. *)
Definition entry_of (fs : FS) (ident : Path -> string) (file_path : Path)
    : option string :=
  match read_text fs (str file_path) with
  | inl contents =>
      if nonempty (strip contents)
      then Some (entry (escape (ident file_path)) (escape contents))
      else None
  | inr _ => None
  end.

(** The identifier of bulk mode as a total function, for files that are
    under the root. *)
Definition relative_name (target_path file_path : Path) : string :=
  match relative_to file_path target_path with
  | Ok rel => as_posix rel
  | Raise _ => ""
  end.

(** The document as the specification draws it: the header line, the
    entries joined by a comma and a line feed, and a line with a lone
    full stop. *)
Definition render (entries : list string) : string :=
  "My codebase includes" ++ nl ++ join ("," ++ nl) entries ++ nl ++ ".".

(** Undoing the escaping: a backslash right before a single quote is
    dropped. *)
Fixpoint unescape (s : string) : string :=
  match s with
  | "" => ""
  | String c r =>
      match r with
      | String d r' =>
          if Ascii.eqb c "\" && Ascii.eqb d "'" then String d (unescape r')
          else String c (unescape r)
      | "" => String c ""
      end
  end.

(** The text of a list of lines, each followed by a line feed. *)
Fixpoint terminated (lines : list string) : string :=
  match lines with
  | [] => ""
  | line :: rest => line ++ nl ++ terminated rest
  end.

(** A pattern as [load_ignore_paths] keeps it: stripped, not empty, and
    free of line feed and carriage return. *)
Definition well_kept (p : string) : Prop :=
  strip p = p /\ p <> "" /\ mem LF p = false /\ mem CR p = false.

(** The lines a source file offers: those of its text when the file is
    there and can be read, none when it is absent. *)
Definition source (fs : FS) (p : string) (lines : list string) : Prop :=
  if fs_exists fs p
  then exists text, read_text fs p = inl text /\ lines = readlines text
  else lines = [].

(** The stripped lines that are taken as paths: the non-blank ones, and
    in the script those that do not start with a hash. *)
Definition candidates (script : bool) (lines : list string) : list string :=
  List.filter
    (fun p => nonempty p && negb (script && startswith p "#"))
    (map strip lines).

(** The candidates that name a regular file, as paths, and the warnings
    for those that do not. *)
Definition valid_paths (fs : FS) (cands : list string) : list Path :=
  map parse (List.filter (fs_isfile fs) cands).

Definition warnings (fs : FS) (src : string) (cands : list string) : list string :=
  map (fun p => invalid_warning p src)
    (List.filter (fun p => negb (fs_isfile fs p)) cands).

(** A small tree used by the examples: [a.txt] holds [hello], [b.txt] is
    empty, [ws.txt] holds white space only, [q.txt] holds a single
    quote, [o'brien.txt] has one in its name, and nothing else can be
    read. *)
Definition demo_fs : FS :=
  mkFS (fun _ => true) (fun _ => true)
    (fun p =>
       if String.eqb p "/proj/a.txt" then inl "hello"
       else if String.eqb p "/proj/b.txt" then inl ""
       else if String.eqb p "/proj/ws.txt"
            then inl ("   " ++ nl ++ String "009" "")
       else if String.eqb p "/proj/q.txt" then inl "It's"
       else if String.eqb p "/proj/o'brien.txt" then inl "x"
       else if String.eqb p "a.txt" then inl "hello"
       else inr "[Errno 2] No such file or directory")
    (fun _ => None) (fun p => p) (fun _ => []).

(** A tree in which the ignore file is missing. *)
Definition demo_fs_without_store : FS :=
  mkFS (fun _ => false) (fun _ => false)
    (fun _ => inr "[Errno 2] No such file or directory")
    (fun _ => None) (fun p => p) (fun _ => []).

(** A tree for the loader: [target_files.txt] lists [a.txt], a blank
    line, [gone.txt] and [b.txt]; the script lists [c.txt] under two
    comment lines; [a.txt], [b.txt] and [c.txt] are regular files. *)
Definition loader_fs : FS :=
  mkFS (fun p => String.eqb p TARGET_FILES_FILE
                 || String.eqb p INDIVIDUAL_FILES_SCRIPT)
    (fun p => String.eqb p "a.txt" || String.eqb p "b.txt" || String.eqb p "c.txt")
    (fun p =>
       if String.eqb p TARGET_FILES_FILE
       then inl ("a.txt" ++ nl ++ nl ++ "gone.txt" ++ nl ++ "b.txt" ++ nl)
       else if String.eqb p INDIVIDUAL_FILES_SCRIPT
       then inl ("#!/bin/bash" ++ nl ++ "# paths" ++ nl ++ nl ++ "c.txt" ++ nl)
       else inr "[Errno 2] No such file or directory")
    (fun _ => None) (fun p => p) (fun _ => []).



(** ** The interactive functions *)

(** [c.lower()] on a code point below 256: the letters A to Z and the
    capital letters of Latin-1 move up by 32. *)
Definition lower_char (c : ascii) : ascii :=
  let n := nat_of_ascii c in
  if (Nat.leb 65 n && Nat.leb n 90)
     || (Nat.leb 192 n && Nat.leb n 214)
     || (Nat.leb 216 n && Nat.leb n 222)
  then ascii_of_nat (n + 32) else c.

(** [s.lower()] *)
Fixpoint lower (s : string) : string :=
  match s with
  | "" => ""
  | String c r => String (lower_char c) (lower r)
  end.

(** A function that reads the terminal.  The standard input is the
    list of the lines that the successive calls of [input] return;
    a call on the exhausted input raises [EOFError].  A function that
    returns gives back the lines it has not read. *)
Inductive console (A : Type) : Type :=
| Returned (a : A) (stdin : list string)
| EOFError.
Arguments Returned {A} a stdin.
Arguments EOFError {A}.

(** What is written before a run of a terminal loop continues: [input]
    writes its prompt, [print] its line. *)
Definition written_then {A} (out : list string)
    (k : list string * console A) : list string * console A :=
  ((out ++ fst k)%list, snd k).

Definition ignore_prompt : string := "Ignore path (or 'done'): ".

Definition duplicate_notice (user_input : string) : string :=
  "'" ++ user_input ++ "' is already in the ignore list. Skipping duplicate.".

Definition added_notice (user_input : string) : string :=
  "Added '" ++ user_input ++ "' to ignore list.".

(** The [while True] loop of [prompt_for_ignore_paths]. *)
Fixpoint ignore_input_loop (existing_ignore_set : gset string)
    (stdin : list string) : list string * console (gset string) :=
  match stdin with
  | [] => ([ignore_prompt], EOFError)
  | line :: rest =>
      let user_input := strip line in
      if String.eqb (lower user_input) "done" then
        ([ignore_prompt], Returned existing_ignore_set rest)
      else if negb (nonempty user_input) then
        written_then [ignore_prompt] (ignore_input_loop existing_ignore_set rest)
      else if bool_decide (user_input ∈ existing_ignore_set) then
        written_then [ignore_prompt; duplicate_notice user_input]
          (ignore_input_loop existing_ignore_set rest)
      else
        written_then [ignore_prompt; added_notice user_input]
          (ignore_input_loop (existing_ignore_set ∪ {[ user_input ]}) rest)
  end.

(** The lines printed before the loop: the current patterns in sorted
    order, or a note that there are none. *)
Definition ignore_listing (existing_ignore_set : gset string) : list string :=
  let current := nl ++ "Current ignore paths:" in
  let paths :=
    match elements existing_ignore_set with
    | [] => [" (none)"]
    | _ :: _ => map (fun path => " -" ++ " " ++ path) (sorted existing_ignore_set)
    end in
  let invite :=
    nl ++ "Enter file or directory paths to ignore. Type 'done' when finished." in
  current :: (paths ++ [invite])%list.

Definition prompt_for_ignore_paths (existing_ignore_set : gset string)
    (stdin : list string) : list string * console (gset string) :=
  written_then (ignore_listing existing_ignore_set)
    (ignore_input_loop existing_ignore_set stdin).

Definition script_saved_notice : string :=
  "Script with file paths saved to '" ++ INDIVIDUAL_FILES_SCRIPT ++ "'.".

Definition save_individual_files_script (files : list Path) (fs : FS) : IO FS :=
  match fs_open_w fs INDIVIDUAL_FILES_SCRIPT with
  | Some msg => lift (Raise (OSError msg))
  | None =>
      let written := "" ++ ("#!/bin/bash" ++ nl) in
      let written :=
        written ++ ("# Script containing file paths used for prompt generation." ++ nl) in
      let written :=
        written ++ ("# You can use this file as input for future runs." ++ nl ++ nl) in
      let written :=
        fold_left (fun written file_path => written ++ (str file_path ++ nl))
          files written in
      print script_saved_notice ;;;
      ret (write_text fs INDIVIDUAL_FILES_SCRIPT written)
  end.

Definition file_prompt : string := "File path (or 'done'): ".

Definition retry_warning (file_input : string) : string :=
  "Warning: '" ++ file_input ++ "' is not a valid file. Please try again.".

(** The file collection loop of [main], in individual mode: the
    [while True] that follows the optional load from file. *)
Fixpoint collect_individual_files (fs : FS) (individual_files : list Path)
    (stdin : list string) : list string * console (list Path) :=
  match stdin with
  | [] => ([file_prompt], EOFError)
  | line :: rest =>
      let file_input := strip line in
      if String.eqb (lower file_input) "done" then
        ([file_prompt], Returned individual_files rest)
      else if negb (fs_isfile fs file_input) then
        written_then [file_prompt; retry_warning file_input]
          (collect_individual_files fs individual_files rest)
      else
        written_then [file_prompt]
          (collect_individual_files fs
             (individual_files ++ [parse file_input])%list rest)
  end.

(** ** More vocabulary *)

(** A line of input that ends a terminal loop. *)
Definition is_done (line : string) : bool := String.eqb (lower (strip line)) "done".

(** The patterns a list of input lines brings: the stripped lines that
    are not blank. *)
Definition entered (lines : list string) : list string :=
  List.filter nonempty (map strip lines).

(** A name component as pathlib keeps it, and a path made of such. *)
Definition wf_name (x : string) : Prop :=
  x <> "" /\ x <> "." /\ mem "/" x = false.

Definition wf_path (p : Path) : Prop :=
  (root p = "" \/ root p = "/" \/ root p = "//") /\ Forall wf_name (tail p).

(** The lines that open the script. *)
Definition script_header : list string :=
  ["#!/bin/bash";
   "# Script containing file paths used for prompt generation.";
   "# You can use this file as input for future runs.";
   ""].

(** A tree for the terminal examples: the ignore file holds [build] and
    a padded [.git]; [a.txt] and [b.txt] are regular files. *)
Definition session_fs : FS :=
  mkFS (fun p => String.eqb p IGNORE_FILE)
    (fun p => String.eqb p "a.txt" || String.eqb p "b.txt")
    (fun p => if String.eqb p IGNORE_FILE then inl ("build" ++ nl ++ "  .git " ++ nl)
              else if String.eqb p "a.txt" then inl "hello"
              else if String.eqb p "b.txt" then inl "It's"
              else inr "[Errno 2] No such file or directory")
    (fun _ => None) (fun p => p)
    (fun _ => [parse "/proj/a.txt"; parse "/other/x.txt"; parse "/proj/src"; parse "/proj/build/out.o"]).

(** * Properties *)

(** ** Strings *)

Section text_facts.

Lemma startswith_empty s : startswith s "" = true.
Proof. by destruct s. Qed.

Lemma startswith_spec s p : startswith s p = true <-> exists t, s = p ++ t.
Proof.
  revert s. induction p as [|a p IH]; intros s; simpl.
  - split; [intros _; by exists s | done].
  - destruct s as [|b s]; simpl.
    + split; [done | intros [t Ht]; discriminate].
    + destruct (Ascii.eqb_spec a b) as [->|Hne].
      * rewrite IH. split; intros [t Ht]; exists t.
        -- simpl. by rewrite Ht.
        -- simpl in Ht. by injection Ht.
      * split; [done | intros [t Ht]; simpl in Ht; injection Ht as <- _; done].
Qed.

Lemma ignore_loop_spec abs_file rel_file patterns :
  ignore_loop abs_file rel_file patterns = true <->
  exists P, P ∈ patterns /\
    (if isabs P then startswith abs_file P else startswith rel_file P) = true.
Proof.
  induction patterns as [|Q rest IH]; simpl.
  - split; [done | intros (P & HP & _); by apply elem_of_nil in HP].
  - split.
    + destruct (isabs Q) eqn:Habs.
      * destruct (startswith abs_file Q) eqn:Hs.
        -- intros _. exists Q. rewrite Habs. split; [left | done].
        -- intros (P & HP & Hm)%IH. exists P. split; [by right | done].
      * destruct (startswith rel_file Q) eqn:Hs.
        -- intros _. exists Q. rewrite Habs. split; [left | done].
        -- intros (P & HP & Hm)%IH. exists P. split; [by right | done].
    + intros (P & HP & Hm). apply elem_of_cons in HP as [->|HP].
      * destruct (isabs Q); by rewrite Hm.
      * assert (ignore_loop abs_file rel_file rest = true) as ->
          by (apply IH; eauto).
        by repeat case_match.
Qed.

(** The answer does not depend on the order in which the set is
    iterated. *)
Lemma ignore_loop_order abs_file rel_file patterns patterns' :
  patterns ≡ₚ patterns' ->
  ignore_loop abs_file rel_file patterns = ignore_loop abs_file rel_file patterns'.
Proof.
  intros Hperm. apply eq_true_iff_eq. rewrite !ignore_loop_spec.
  by setoid_rewrite Hperm.
Qed.

End text_facts.

(** ** The path filter *)

(** C1. Ignore matching is plain string-prefix matching.  For a file
    under the root, [should_ignore] answers true exactly when some
    pattern of the set matches: a relative pattern matches when it is a
    string prefix of the root-relative posix path of the file, an
    absolute one when it is a string prefix of the resolved path.  So a
    relative pattern alone ignores the file exactly when it is such a
    prefix; no path-segment boundary is looked at. *)
Theorem should_ignore_prefix_match fs file_path target_folder rel :
  relative_to file_path target_folder = Ok rel ->
  (forall ignore_set : gset string,
      should_ignore fs file_path target_folder ignore_set = true <->
      exists P, P ∈ ignore_set /\
        ((isabs P = false /\ exists t, as_posix rel = P ++ t) \/
         (isabs P = true /\ exists t, str (fs_resolve fs file_path) = P ++ t)))
  /\ (forall P, isabs P = false ->
        (should_ignore fs file_path target_folder {[ P ]} = true <->
         exists t, as_posix rel = P ++ t)).
Proof.
  intros Hrel.
  assert (forall ignore_set : gset string,
      should_ignore fs file_path target_folder ignore_set = true <->
      exists P, P ∈ ignore_set /\
        ((isabs P = false /\ exists t, as_posix rel = P ++ t) \/
         (isabs P = true /\ exists t, str (fs_resolve fs file_path) = P ++ t)))
    as Hgen.
  { intros ignore_set. unfold should_ignore. rewrite Hrel, ignore_loop_spec.
    split.
    - intros (P & HP%elem_of_elements & Hm). exists P. split; [done|].
      destruct (isabs P); apply startswith_spec in Hm; eauto.
    - intros (P & HP & [[Habs Hm]|[Habs Hm]]); exists P;
        (split; [by apply elem_of_elements|]);
        rewrite Habs; by apply startswith_spec. }
  split; [exact Hgen|].
  intros P Habs. rewrite Hgen. split.
  - intros (Q & ->%elem_of_singleton & [[_ Hm]|[Habs' _]]); [done | congruence].
  - intros Hm. exists P. split; [by apply elem_of_singleton | eauto].
Qed.

(** The scenario of C1: the relative pattern [build] ignores both
    [build/out.txt] and [build2/out.txt]. *)
Lemma should_ignore_build_build2 :
  let fs := mkFS (fun _ => true) (fun _ => true) (fun _ => inl "x")
              (fun _ => None) (fun p => p) (fun _ => []) in
  relative_to (parse "/proj/build2/out.txt") (parse "/proj")
    = Ok (parse "build2/out.txt")
  /\ should_ignore fs (parse "/proj/build/out.txt") (parse "/proj") {[ "build" ]} = true
  /\ should_ignore fs (parse "/proj/build2/out.txt") (parse "/proj") {[ "build" ]} = true.
Proof.
  intros fs. split; [reflexivity|]. split.
  - apply (proj2 (should_ignore_prefix_match fs (parse "/proj/build/out.txt")
             (parse "/proj") (parse "build/out.txt") eq_refl) "build" eq_refl).
    by exists "/out.txt".
  - apply (proj2 (should_ignore_prefix_match fs (parse "/proj/build2/out.txt")
             (parse "/proj") (parse "build2/out.txt") eq_refl) "build" eq_refl).
    by exists "2/out.txt".
Defined.

(** C4. A file that is not under the root is ignored whatever the
    pattern set: when the root-relative path cannot be computed,
    [should_ignore] answers true. *)
Theorem should_ignore_outside_root fs file_path target_folder e
    (ignore_set : gset string) :
  relative_to file_path target_folder = Raise e ->
  should_ignore fs file_path target_folder ignore_set = true.
Proof. intros Hrel. unfold should_ignore. by rewrite Hrel. Qed.

Lemma should_ignore_outside_root_witness :
  let fs := mkFS (fun _ => true) (fun _ => true) (fun _ => inl "x")
              (fun _ => None) (fun p => p) (fun _ => []) in
  relative_to (parse "/other/a.txt") (parse "/proj") = Raise ValueError
  /\ should_ignore fs (parse "/other/a.txt") (parse "/proj") ∅ = true.
Proof.
  intros fs. split; [reflexivity|].
  exact (should_ignore_outside_root fs (parse "/other/a.txt") (parse "/proj")
           ValueError ∅ eq_refl).
Defined.

Lemma walk_all_ignored fs target_path (ignore_set : gset string) found acc :
  (forall file_path, should_ignore fs file_path target_path ignore_set = true) ->
  walk fs target_path ignore_set found acc = acc.
Proof.
  intros Hall. induction found as [|f found IH]; simpl; [done|].
  rewrite Hall. simpl. by destruct (fs_isfile fs (str f)).
Qed.

(** C10. The empty string is a prefix of every path: a pattern set that
    holds it makes [should_ignore] answer true for every file, so the
    bulk scan keeps no file at all. *)
Theorem empty_pattern_ignores_all fs (ignore_set : gset string) :
  "" ∈ ignore_set ->
  (forall file_path target_folder rel,
      relative_to file_path target_folder = Ok rel ->
      (exists t, as_posix rel = "" ++ t)
      /\ should_ignore fs file_path target_folder ignore_set = true)
  /\ (forall target_folder, get_all_files fs target_folder ignore_set = []).
Proof.
  intros Hin.
  assert (forall file_path target_folder,
             should_ignore fs file_path target_folder ignore_set = true) as Hall.
  { intros file_path target_folder. unfold should_ignore.
    destruct (relative_to file_path target_folder) as [rel|e]; [|done].
    apply ignore_loop_spec. exists "". split; [by apply elem_of_elements|].
    change (isabs "") with false. apply startswith_empty. }
  split.
  - intros file_path target_folder rel _. split; [|apply Hall].
    by exists (as_posix rel).
  - intros target_folder. unfold get_all_files. by apply walk_all_ignored.
Qed.

Lemma empty_pattern_ignores_all_witness :
  let a := parse "/proj/a.txt" in
  let b := parse "/proj/src/b.py" in
  let fs := mkFS (fun _ => true) (fun _ => true) (fun _ => inl "x")
              (fun _ => None) (fun p => p) (fun _ => [a; b]) in
  "" ∈ ({[ "" ]} : gset string)
  /\ should_ignore fs a (parse "/proj") {[ "" ]} = true
  /\ get_all_files fs "/proj" {[ "" ]} = []
  /\ get_all_files fs "/proj" ∅ = [a; b].
Proof.
  intros a b fs.
  pose proof (empty_pattern_ignores_all fs {[ "" ]}
                (proj2 (elem_of_singleton "" "") eq_refl)) as [Hfile Hscan].
  split; [by apply elem_of_singleton|].
  split; [exact (proj2 (Hfile a (parse "/proj") (parse "a.txt") eq_refl))|].
  split; [exact (Hscan "/proj") | reflexivity].
Defined.

(** ** The prompt serializers *)

Section monad_facts.
Context {A B : Type}.

Lemma bind_ret (a : A) (k : A -> IO B) : bind (ret a) k = k a.
Proof. unfold bind, ret. by destruct (k a). Qed.

Lemma bind_lift_ok (a : A) (k : A -> IO B) : bind (lift (Ok a)) k = k a.
Proof. apply bind_ret. Qed.

Lemma bind_print line (k : IO B) :
  (print line ;;; k) = (line :: stdout k, outcome k).
Proof. unfold bind, print. by destruct k. Qed.

Lemma bind_pair_ok out (a : A) (k : A -> IO B) :
  bind (out, Ok a) k = ((out ++ stdout (k a))%list, outcome (k a)).
Proof. unfold bind. by destruct (k a). Qed.
End monad_facts.

Section string_facts.

Lemma append_cons c s t : String c s ++ t = String c (s ++ t).
Proof. reflexivity. Qed.

Lemma append_nil_l s : "" ++ s = s.
Proof. reflexivity. Qed.

Lemma append_nil_r s : s ++ "" = s.
Proof. induction s as [|c s IH]; [done|]. by rewrite append_cons, IH. Qed.

Lemma append_assoc s t u : (s ++ t) ++ u = s ++ (t ++ u).
Proof. induction s as [|c s IH]; [done|]. by rewrite !append_cons, IH. Qed.





End string_facts.

Section loops.
Variable fs : FS.

(** What the bulk loop computes on files under the root: it prints
    the diagnostics of the unreadable ones and appends the entries of
    the surviving ones, both in the order of the list. *)
Lemma bulk_loop_spec target_path files file_entries :
  Forall (under target_path) files ->
  bulk_loop fs target_path files file_entries =
    (omap (diagnostic_of fs) files,
     Ok (file_entries ++ omap (entry_of fs (relative_name target_path)) files)%list).
Proof.
  intros Hu. revert file_entries.
  induction Hu as [|f files [rel Hrel] _ IH]; intros acc; simpl.
  - by rewrite app_nil_r.
  - rewrite Hrel.
    unfold diagnostic_of, entry_of, relative_name. rewrite Hrel.
    destruct (read_text fs (str f)) as [contents|e].
    + destruct (nonempty (strip contents)); simpl; rewrite IH; [|done].
      by rewrite <- app_assoc.
    + by rewrite IH.
Qed.

Lemma individual_loop_spec files file_entries :
  individual_loop fs files file_entries =
    (omap (diagnostic_of fs) files,
     Ok (file_entries ++ omap (entry_of fs str) files)%list).
Proof.
  revert file_entries.
  induction files as [|f files IH]; intros acc; simpl.
  - by rewrite app_nil_r.
  - unfold diagnostic_of, entry_of.
    destruct (read_text fs (str f)) as [contents|e].
    + destruct (nonempty (strip contents)); simpl; rewrite IH; [|done].
      by rewrite <- app_assoc.
    + by rewrite IH.
Qed.

Lemma generate_prompt_spec target_folder files :
  Forall (under (parse target_folder)) files ->
  generate_prompt fs target_folder files =
    (omap (diagnostic_of fs) files,
     Ok (render (omap (entry_of fs (relative_name (parse target_folder))) files))).
Proof.
  intros Hu. unfold generate_prompt. rewrite (bulk_loop_spec _ _ _ Hu).
  rewrite bind_pair_ok. simpl. by rewrite app_nil_r.
Qed.

Lemma generate_prompt_individual_spec files :
  generate_prompt_individual fs files =
    (omap (diagnostic_of fs) files, Ok (render (omap (entry_of fs str) files))).
Proof.
  unfold generate_prompt_individual. rewrite individual_loop_spec.
  rewrite bind_pair_ok. simpl. by rewrite app_nil_r.
Qed.

(** The entries of the surviving files, one for one and in order. *)
Lemma entries_of_survivors ident files :
  Forall2 (fun f e => exists contents,
               read_text fs (str f) = inl contents /\
               strip contents <> "" /\
               e = entry (escape (ident f)) (escape contents))
    (List.filter (survives fs) files)
    (omap (entry_of fs ident) files).
Proof.
  induction files as [|f files IH]; simpl; [constructor|].
  unfold survives at 1, entry_of at 1.
  destruct (read_text fs (str f)) as [contents|e] eqn:Hread; [|done].
  destruct (nonempty (strip contents)) eqn:Hne; [|done].
  constructor; [|done].
  exists contents. split; [done|]. split; [|done].
  intros Hempty. by rewrite Hempty in Hne.
Qed.

End loops.

Section escaping_facts.

Lemma escape_cons_quote r : escape (String "'" r) = String "\" (String "'" (escape r)).
Proof. reflexivity. Qed.

Lemma escape_cons_other c r :
  c <> "'"%char -> escape (String c r) = String c (escape r).
Proof.
  intros Hc. unfold escape. simpl.
  by destruct (Ascii.eqb_spec c "'").
Qed.

Lemma escape_head s d r : escape s = String d r -> d <> "'"%char.
Proof.
  destruct s as [|c s]; [done|].
  destruct (decide (c = "'"%char)) as [->|Hc].
  - rewrite escape_cons_quote. by intros [= <- _].
  - rewrite escape_cons_other by done. by intros [= <- _].
Qed.

Lemma escape_empty s : escape s = "" -> s = "".
Proof.
  destruct s as [|c s]; [done|].
  destruct (decide (c = "'"%char)) as [->|Hc].
  - by rewrite escape_cons_quote.
  - by rewrite escape_cons_other.
Qed.

(** Every single quote of an escaped string stands right after a
    backslash. *)
Lemma escape_quote_guarded s pre post :
  escape s = pre ++ String "'" post -> exists pre', pre = pre' ++ "\".
Proof.
  revert pre. induction s as [|c s IH]; intros pre.
  - destruct pre; discriminate.
  - destruct (decide (c = "'"%char)) as [->|Hc].
    + rewrite escape_cons_quote.
      destruct pre as [|x [|y pre]]; rewrite ?append_cons, ?append_nil_l.
      * discriminate.
      * intros [= <- _]. by exists "".
      * intros [= <- <- Hrest]. apply IH in Hrest as [pre' ->].
        by exists (String "\" (String "'" pre')).
    + rewrite escape_cons_other by done.
      destruct pre as [|x pre]; rewrite ?append_cons, ?append_nil_l.
      * by intros [= ? _].
      * intros [= <- Hrest]. apply IH in Hrest as [pre' ->].
        by exists (String c pre').
Qed.

(** Dropping the guarding backslashes gives the string back: the
    escaping adds a backslash before each single quote and changes
    nothing else. *)
Lemma unescape_escape s : unescape (escape s) = s.
Proof.
  induction s as [|c s IH]; [done|].
  destruct (decide (c = "'"%char)) as [->|Hc].
  - rewrite escape_cons_quote. simpl. by rewrite IH.
  - rewrite escape_cons_other by done. simpl.
    destruct (escape s) as [|d r] eqn:Hes.
    + by rewrite (escape_empty s Hes).
    + apply escape_head in Hes as Hd.
      destruct (Ascii.eqb_spec d "'"); [done|].
      rewrite andb_false_r. by rewrite IH.
Qed.

End escaping_facts.

(** C2. The rendered prompt is the header line [My codebase includes],
    then the entries of the surviving files, each of the form
    ['<id>' with '<content>'], joined by a comma and a line feed, then a
    line that is a lone full stop.  With no surviving entry the body is
    empty: header, blank line, full stop.  The bulk serializer does so
    on files under the root, the individual one on every list. *)
Theorem prompt_layout fs target_folder files :
  Forall (under (parse target_folder)) files ->
  (exists entries,
      Forall2 (fun f e => exists rel contents,
                   relative_to f (parse target_folder) = Ok rel /\
                   read_text fs (str f) = inl contents /\
                   e = "'" ++ escape (as_posix rel) ++ "' with '"
                       ++ escape contents ++ "'")
        (List.filter (survives fs) files) entries
      /\ outcome (generate_prompt fs target_folder files) =
           Ok ("My codebase includes" ++ nl
               ++ join ("," ++ nl) entries ++ nl ++ "."))
  /\ (exists entries,
      Forall2 (fun f e => exists contents,
                   read_text fs (str f) = inl contents /\
                   e = "'" ++ escape (str f) ++ "' with '"
                       ++ escape contents ++ "'")
        (List.filter (survives fs) files) entries
      /\ outcome (generate_prompt_individual fs files) =
           Ok ("My codebase includes" ++ nl
               ++ join ("," ++ nl) entries ++ nl ++ "."))
  /\ (List.filter (survives fs) files = [] ->
      outcome (generate_prompt fs target_folder files) =
        Ok ("My codebase includes" ++ nl ++ nl ++ ".")
      /\ outcome (generate_prompt_individual fs files) =
        Ok ("My codebase includes" ++ nl ++ nl ++ ".")).
Proof.
  intros Hu.
  rewrite (generate_prompt_spec fs _ _ Hu), generate_prompt_individual_spec.
  pose proof (entries_of_survivors fs (relative_name (parse target_folder)) files)
    as Hbulk.
  pose proof (entries_of_survivors fs str files) as Hind.
  split; [|split].
  - eexists. split; [|reflexivity].
    assert (Forall (under (parse target_folder)) (List.filter (survives fs) files))
      as Hu'.
    { apply Forall_forall. intros f [Hf _]%list_elem_of_In%filter_In.
      eapply Forall_forall in Hu; [done|]. by apply list_elem_of_In. }
    revert Hbulk Hu'. generalize (List.filter (survives fs) files).
    generalize (omap (entry_of fs (relative_name (parse target_folder))) files).
    intros es fsurv HF. induction HF as [|f e fsurv es (c & Hc & _ & He) _ IH];
      intros Hall; [constructor|].
    apply Forall_cons in Hall as [[rel Hrel] Hall].
    constructor; [|by apply IH].
    exists rel, c. repeat split; [done..|].
    rewrite He. unfold relative_name. by rewrite Hrel.
  - eexists. split; [|reflexivity].
    eapply Forall2_impl; [exact Hind|].
    intros f e (c & Hc & _ & He). by exists c.
  - intros Hnone. rewrite Hnone in Hbulk, Hind.
    apply Forall2_nil_inv_l in Hbulk, Hind. by rewrite Hbulk, Hind.
Qed.

(** The scenario of C2: [a.txt] holds [hello] and [b.txt] is empty. *)
Lemma prompt_layout_witness :
  let files := [parse "/proj/a.txt"; parse "/proj/b.txt"] in
  Forall (under (parse "/proj")) files
  /\ outcome (generate_prompt demo_fs "/proj" files) =
       Ok ("My codebase includes" ++ nl ++ "'a.txt' with 'hello'" ++ nl ++ ".")
  /\ outcome (generate_prompt demo_fs "/proj" []) =
       Ok ("My codebase includes" ++ nl ++ nl ++ ".").
Proof.
  intros files.
  assert (Forall (under (parse "/proj")) files) as Hu.
  { repeat constructor; eexists; reflexivity. }
  split; [exact Hu|]. split.
  - destruct (prompt_layout demo_fs "/proj" files Hu)
      as [(entries & HF & Hout) _].
    rewrite Hout.
    change (List.filter (survives demo_fs) files) with [parse "/proj/a.txt"] in HF.
    apply Forall2_cons_inv_l in HF
      as (e & es & (rel & c & Hrel & Hc & ->) & ->%Forall2_nil_inv_l & ->).
    injection Hrel as <-. injection Hc as <-. reflexivity.
  - apply (prompt_layout demo_fs "/proj" [] (List.Forall_nil _)). reflexivity.
Defined.

Section blank_facts.
Variable fs : FS.

Lemma blank_no_entry ident f : blank fs f = true -> entry_of fs ident f = None.
Proof.
  unfold blank, entry_of. destruct (read_text fs (str f)); [|done].
  by destruct (nonempty _).
Qed.

Lemma blank_no_diagnostic f : blank fs f = true -> diagnostic_of fs f = None.
Proof. unfold blank, diagnostic_of. by destruct (read_text fs (str f)). Qed.

Lemma omap_filter_not_blank {B} (g : Path -> option B) files :
  (forall f, blank fs f = true -> g f = None) ->
  omap g (List.filter (fun f => negb (blank fs f)) files) = omap g files.
Proof.
  intros Hg. induction files as [|f files IH]; [done|]. simpl.
  destruct (blank fs f) eqn:Hb; simpl.
  - rewrite (Hg f Hb). exact IH.
  - destruct (g f); [f_equal|]; exact IH.
Qed.

End blank_facts.

(** C3. The prompt never holds an entry for a file whose content is
    empty once stripped.  In both modes the entries collected by the
    loop are, one for one and in order, those of the files that could be
    read and whose stripped content is not empty; and a run is the same,
    in what it prints and in what it returns, as the run on the list
    without the blank files.  The individual serializer does so on
    every list of files, the bulk one on every list of files under the
    root, outside of which it raises. *)
Theorem blank_files_excluded fs target_folder files :
  (Forall (under (parse target_folder)) files ->
     (exists file_entries,
         outcome (bulk_loop fs (parse target_folder) files []) = Ok file_entries
         /\ Forall2 (fun f e => exists contents,
                        read_text fs (str f) = inl contents /\
                        strip contents <> "" /\
                        e = entry (escape (relative_name (parse target_folder) f))
                              (escape contents))
              (List.filter (survives fs) files) file_entries)
     /\ generate_prompt fs target_folder files =
          generate_prompt fs target_folder
            (List.filter (fun f => negb (blank fs f)) files))
  /\ (exists file_entries,
      outcome (individual_loop fs files []) = Ok file_entries
      /\ Forall2 (fun f e => exists contents,
                     read_text fs (str f) = inl contents /\
                     strip contents <> "" /\
                     e = entry (escape (str f)) (escape contents))
           (List.filter (survives fs) files) file_entries)
  /\ generate_prompt_individual fs files =
       generate_prompt_individual fs
         (List.filter (fun f => negb (blank fs f)) files).
Proof.
  pose proof (fun ident =>
    omap_filter_not_blank fs (entry_of fs ident) files (blank_no_entry fs ident))
    as Hent.
  pose proof (omap_filter_not_blank fs (diagnostic_of fs) files
                (blank_no_diagnostic fs)) as Hdiag.
  split; [|split].
  - intros Hu.
    assert (Forall (under (parse target_folder))
              (List.filter (fun f => negb (blank fs f)) files)) as Hu'.
    { apply Forall_forall. intros f [Hf _]%list_elem_of_In%filter_In.
      eapply Forall_forall in Hu; [done|]. by apply list_elem_of_In. }
    split.
    + rewrite (bulk_loop_spec fs _ _ _ Hu). eexists. split; [done|].
      apply entries_of_survivors.
    + rewrite (generate_prompt_spec fs _ _ Hu), (generate_prompt_spec fs _ _ Hu').
      by rewrite Hent, Hdiag.
  - rewrite individual_loop_spec. eexists. split; [done|].
    apply entries_of_survivors.
  - rewrite !generate_prompt_individual_spec. by rewrite Hent, Hdiag.
Qed.

(** The scenario of C3: a file of white space only leaves no entry, in
    bulk mode and, on a list with no common root, in individual mode. *)
Lemma blank_files_excluded_witness :
  let files := [parse "/proj/ws.txt"; parse "/proj/a.txt"] in
  let mixed := [parse "/proj/ws.txt"; parse "a.txt"] in
  Forall (under (parse "/proj")) files
  /\ blank demo_fs (parse "/proj/ws.txt") = true
  /\ generate_prompt demo_fs "/proj" files =
       generate_prompt demo_fs "/proj" [parse "/proj/a.txt"]
  /\ generate_prompt_individual demo_fs mixed =
       generate_prompt_individual demo_fs [parse "a.txt"]
  /\ outcome (generate_prompt_individual demo_fs mixed) =
       Ok ("My codebase includes" ++ nl ++ "'a.txt' with 'hello'" ++ nl ++ ".").
Proof.
  intros files mixed.
  assert (Forall (under (parse "/proj")) files) as Hu.
  { repeat constructor; eexists; reflexivity. }
  split; [exact Hu|]. split; [reflexivity|]. split; [|split].
  - exact (proj2 (proj1 (blank_files_excluded demo_fs "/proj" files) Hu)).
  - exact (proj2 (proj2 (blank_files_excluded demo_fs "/proj" mixed))).
  - reflexivity.
Defined.

(** C5. In every entry, each single quote of the display identifier
    and of the content is escaped by a backslash put before it.  The
    entries of both loops are built from the escaped identifier and the
    escaped content, for every list of files in individual mode and for
    every list of files under the root in bulk mode; in an escaped
    string every single quote stands right after a backslash, and
    dropping those backslashes gives the original string back.  So
    [It's] is emitted as [It\'s]. *)
Theorem single_quotes_escaped fs target_folder files :
  (Forall (under (parse target_folder)) files ->
     exists file_entries,
       outcome (bulk_loop fs (parse target_folder) files []) = Ok file_entries
       /\ Forall2 (fun f e => exists rel contents,
                      relative_to f (parse target_folder) = Ok rel /\
                      read_text fs (str f) = inl contents /\
                      e = "'" ++ escape (as_posix rel) ++ "' with '"
                          ++ escape contents ++ "'")
            (List.filter (survives fs) files) file_entries)
  /\ (exists file_entries,
      outcome (individual_loop fs files []) = Ok file_entries
      /\ Forall2 (fun f e => exists contents,
                     read_text fs (str f) = inl contents /\
                     e = "'" ++ escape (str f) ++ "' with '"
                         ++ escape contents ++ "'")
           (List.filter (survives fs) files) file_entries)
  /\ (forall s pre post,
        escape s = pre ++ String "'" post -> exists pre', pre = pre' ++ "\")
  /\ (forall s, unescape (escape s) = s)
  /\ escape "It's" = "It\'s".
Proof.
  split; [|split; [|split; [|split]]].
  - intros Hu.
    rewrite (bulk_loop_spec fs _ _ _ Hu). eexists. split; [done|].
    pose proof (entries_of_survivors fs (relative_name (parse target_folder)) files)
      as HF.
    assert (Forall (under (parse target_folder)) (List.filter (survives fs) files))
      as Hu'.
    { apply Forall_forall. intros f [Hf _]%list_elem_of_In%filter_In.
      eapply Forall_forall in Hu; [done|]. by apply list_elem_of_In. }
    simpl. revert HF Hu'. generalize (List.filter (survives fs) files).
    generalize (omap (entry_of fs (relative_name (parse target_folder))) files).
    intros es fsurv HF. induction HF as [|f e fsurv es (c & Hc & _ & He) _ IH];
      intros Hall; [constructor|].
    apply Forall_cons in Hall as [[rel Hrel] Hall].
    constructor; [|by apply IH].
    exists rel, c. repeat split; [done..|].
    rewrite He. unfold relative_name. by rewrite Hrel.
  - rewrite individual_loop_spec. eexists. split; [done|]. simpl.
    eapply Forall2_impl; [apply entries_of_survivors|].
    intros f e (c & Hc & _ & He). by exists c.
  - apply escape_quote_guarded.
  - apply unescape_escape.
  - reflexivity.
Qed.

(** The scenario of C5: a quote in the content and a quote in the name,
    in bulk mode and, on a list with no common root, in individual
    mode. *)
Lemma single_quotes_escaped_witness :
  let files := [parse "/proj/q.txt"; parse "/proj/o'brien.txt"] in
  let mixed := [parse "/proj/q.txt"; parse "a.txt"; parse "/proj/o'brien.txt"] in
  Forall (under (parse "/proj")) files
  /\ outcome (bulk_loop demo_fs (parse "/proj") files []) =
       Ok ["'q.txt' with 'It\'s'"; "'o\'brien.txt' with 'x'"]
  /\ outcome (individual_loop demo_fs mixed []) =
       Ok ["'/proj/q.txt' with 'It\'s'"; "'a.txt' with 'hello'";
           "'/proj/o\'brien.txt' with 'x'"].
Proof.
  intros files mixed.
  assert (Forall (under (parse "/proj")) files) as Hu.
  { repeat constructor; eexists; reflexivity. }
  split; [exact Hu|].
  destruct (proj1 (single_quotes_escaped demo_fs "/proj" files) Hu)
    as (bulk & Hbulk & _).
  destruct (proj1 (proj2 (single_quotes_escaped demo_fs "/proj" mixed)))
    as (ind & Hind & _).
  rewrite Hbulk, Hind. split.
  - by injection Hbulk as <-.
  - by injection Hind as <-.
Defined.



(** C9. The two serializers agree.  On a list of files in which the
    bulk identifier of each file, its root-relative posix path, is the
    string of the path as individual mode is given it, the bulk run and
    the individual run print the same lines and return the same
    prompt. *)
Theorem serializers_agree fs target_folder files :
  Forall (fun f => bulk_identifier (parse target_folder) f = Ok (str f)) files ->
  generate_prompt fs target_folder files = generate_prompt_individual fs files.
Proof.
  intros Hid.
  assert (Forall (under (parse target_folder)) files) as Hu.
  { eapply Forall_impl; [exact Hid|]. intros f Hf. unfold bulk_identifier in Hf.
    unfold under. destruct (relative_to f (parse target_folder)); [eauto|done]. }
  rewrite (generate_prompt_spec fs _ _ Hu), generate_prompt_individual_spec.
  do 3 f_equal. apply list_omap_ext.
  clear Hu. induction Hid as [|f files Hf _ IH]; constructor; [|exact IH].
  unfold entry_of, relative_name. unfold bulk_identifier in Hf.
  destruct (relative_to f (parse target_folder)); [|done].
  by injection Hf as ->.
Qed.

(** The scenario of C9: the root is the current directory, so a
    relative path is its own root-relative path. *)
Lemma serializers_agree_witness :
  let files := [parse "a.txt"; parse "src/missing.py"] in
  Forall (fun f => bulk_identifier (parse ".") f = Ok (str f)) files
  /\ generate_prompt demo_fs "." files = generate_prompt_individual demo_fs files
  /\ outcome (generate_prompt_individual demo_fs files) =
       Ok ("My codebase includes" ++ nl ++ "'a.txt' with 'hello'" ++ nl ++ ".").
Proof.
  intros files.
  assert (Forall (fun f => bulk_identifier (parse ".") f = Ok (str f)) files)
    as Hid by (repeat constructor).
  split; [exact Hid|]. split; [|reflexivity].
  exact (serializers_agree demo_fs "." files Hid).
Defined.

(** ** The ignore-set store *)

Section lines_facts.

Lemma nonempty_true s : nonempty s = true <-> s <> "".
Proof. by destruct s. Qed.

Lemma mem_cons c d r : mem c (String d r) = Ascii.eqb c d || mem c r.
Proof. reflexivity. Qed.

Lemma mem_app c s t : mem c (s ++ t) = mem c s || mem c t.
Proof.
  induction s as [|d s IH]; [done|].
  rewrite append_cons. simpl. by rewrite IH, orb_assoc.
Qed.

Lemma rstrip_snoc_space s c : isspace c = true -> rstrip (s ++ String c "") = rstrip s.
Proof.
  intros Hc. induction s as [|a s IH].
  - rewrite append_nil_l. simpl. by rewrite Hc.
  - rewrite append_cons. simpl. by rewrite IH.
Qed.

Lemma lstrip_app s t :
  lstrip (s ++ t) = if nonempty (lstrip s) then lstrip s ++ t else lstrip t.
Proof.
  induction s as [|a s IH]; [done|].
  rewrite append_cons. simpl. by destruct (isspace a).
Qed.

(** A trailing white space character does not change the stripped
    string: in particular the line feed that ends a line. *)
Lemma strip_snoc_space s c : isspace c = true -> strip (s ++ String c "") = strip s.
Proof.
  intros Hc. unfold strip. rewrite lstrip_app.
  destruct (lstrip s) as [|a r] eqn:Hl; simpl.
  - by rewrite Hc.
  - by rewrite rstrip_snoc_space.
Qed.

Lemma rstrip_idem s : rstrip (rstrip s) = rstrip s.
Proof.
  induction s as [|c s IH]; [done|]. simpl.
  destruct (rstrip s) as [|d r] eqn:Hr.
  - destruct (isspace c) eqn:Hc; [done|]. simpl. by rewrite Hc.
  - simpl. simpl in IH. by rewrite IH.
Qed.

Lemma lstrip_head s a r : lstrip s = String a r -> isspace a = false.
Proof.
  induction s as [|c s IH]; [done|]. simpl.
  destruct (isspace c) eqn:Hc; [done|]. by intros [= <- _].
Qed.

Lemma lstrip_rstrip_lstrip s : lstrip (rstrip (lstrip s)) = rstrip (lstrip s).
Proof.
  destruct (lstrip s) as [|a r] eqn:Hl; [done|].
  apply lstrip_head in Hl. simpl.
  destruct (rstrip r); rewrite ?Hl; simpl; by rewrite Hl.
Qed.

Lemma strip_idem s : strip (strip s) = strip s.
Proof. unfold strip. by rewrite lstrip_rstrip_lstrip, rstrip_idem. Qed.

Lemma mem_lstrip c s : mem c (lstrip s) = true -> mem c s = true.
Proof.
  induction s as [|a s IH]; [done|]. simpl.
  destruct (isspace a); [|done]. intros ->%IH. apply orb_true_r.
Qed.

Lemma mem_rstrip c s : mem c (rstrip s) = true -> mem c s = true.
Proof.
  induction s as [|a s IH]; [done|]. cbn [rstrip]. rewrite (mem_cons c a s).
  destruct (rstrip s) as [|d r].
  - destruct (isspace a); [done|]. rewrite mem_cons.
    intros [->|H]%orb_true_iff; done.
  - rewrite (mem_cons c a). intros [->|H]%orb_true_iff; [done|].
    rewrite IH; [apply orb_true_r | done].
Qed.

Lemma mem_strip c s : mem c (strip s) = true -> mem c s = true.
Proof. intros ?%mem_rstrip%mem_lstrip. done. Qed.

(** Universal newlines leave no carriage return. *)
Lemma translate_newlines_no_CR s : mem CR (translate_newlines s) = false.
Proof.
  assert (mem CR (translate_newlines s) = false /\
          forall c, mem CR (translate_newlines (String c s)) = false) as [? _];
    [|done].
  induction s as [|d s [IH1 IH2]].
  - split; [done|]. intros c.
    change (translate_newlines (String c "")) with
      (if Ascii.eqb c CR then String LF "" else String c "").
    destruct (Ascii.eqb_spec c CR) as [->|Hc]; [done|]. rewrite mem_cons.
    destruct (Ascii.eqb_spec CR c); [congruence | done].
  - split; [apply IH2|]. intros c.
    change (translate_newlines (String c (String d s))) with
      (if Ascii.eqb c CR then
         if Ascii.eqb d LF then String LF (translate_newlines s)
         else String LF (translate_newlines (String d s))
       else String c (translate_newlines (String d s))).
    destruct (Ascii.eqb_spec c CR) as [->|Hc].
    + destruct (Ascii.eqb d LF); rewrite mem_cons; [exact IH1 | apply IH2].
    + rewrite mem_cons, (IH2 d).
      destruct (Ascii.eqb_spec CR c); [congruence | done].
Qed.

(** A text without carriage return is read as it is. *)
Lemma translate_newlines_id s : mem CR s = false -> translate_newlines s = s.
Proof.
  induction s as [|c s IH]; [done|]. rewrite mem_cons.
  intros [Hc Hs]%orb_false_iff.
  assert (Ascii.eqb c CR = false) as Hc' by (by rewrite Ascii.eqb_sym).
  change (translate_newlines (String c s)) with
    (if Ascii.eqb c CR then
       match s with
       | String d r' =>
           if Ascii.eqb d LF then String LF (translate_newlines r')
           else String LF (translate_newlines s)
       | "" => String LF ""
       end
     else String c (translate_newlines s)).
  by rewrite Hc', IH.
Qed.

Lemma mem_readlines c text line :
  line ∈ readlines text -> mem c line = true -> mem c text = true.
Proof.
  revert line. induction text as [|d r IH]; intros line.
  - by intros ?%elem_of_nil.
  - rewrite mem_cons. cbn [readlines]. destruct (Ascii.eqb d LF).
    + intros [->|Hin]%elem_of_cons.
      * rewrite mem_cons. intros [->|H]%orb_true_iff; done.
      * intros ->%(IH line Hin). apply orb_true_r.
    + destruct (readlines r) as [|l ls].
      * intros ->%list_elem_of_singleton. rewrite mem_cons.
        intros [->|H]%orb_true_iff; done.
      * intros [->|Hin]%elem_of_cons.
        -- rewrite mem_cons. intros [->|H]%orb_true_iff; [done|].
           rewrite (IH l); [apply orb_true_r | by left | done].
        -- intros H. rewrite (IH line); [apply orb_true_r | by right | done].
Qed.

(** A line as iterated from a file: no line feed but, maybe, a last
    one. *)
Lemma readlines_shape text line :
  line ∈ readlines text ->
  exists body, mem LF body = false /\ (line = body \/ line = body ++ nl).
Proof.
  revert line. induction text as [|d r IH]; intros line; simpl.
  - by intros ?%elem_of_nil.
  - destruct (Ascii.eqb_spec d LF) as [->|Hd].
    + intros [->|Hin]%elem_of_cons; [|by apply IH].
      exists "". split; [done | by right].
    + assert (Ascii.eqb LF d = false) as Hd'
        by (rewrite Ascii.eqb_sym; by apply Ascii.eqb_neq).
      destruct (readlines r) as [|l ls].
      * intros ->%list_elem_of_singleton. exists (String d "").
        split; [by rewrite mem_cons, Hd' | by left].
      * intros [->|Hin]%elem_of_cons.
        -- destruct (IH l) as (body & Hb & Hl); [by left|].
           exists (String d body). split; [by rewrite mem_cons, Hd', Hb|].
           destruct Hl as [->| ->]; [by left | by right].
        -- apply IH. by right.
Qed.

Lemma readlines_terminated_line p rest :
  mem LF p = false ->
  readlines (p ++ nl ++ rest) = (p ++ nl) :: readlines rest.
Proof.
  induction p as [|c p IH]; [done|]. rewrite mem_cons.
  intros [Hc Hp]%orb_false_iff. rewrite !append_cons. cbn [readlines].
  assert (Ascii.eqb c LF = false) as -> by (by rewrite Ascii.eqb_sym).
  by rewrite (IH Hp).
Qed.

Lemma readlines_terminated lines :
  Forall (fun p => mem LF p = false) lines ->
  readlines (terminated lines) = map (fun p => p ++ nl) lines.
Proof.
  induction 1 as [|p lines Hp _ IH]; [done|]. simpl.
  by rewrite readlines_terminated_line, IH.
Qed.

Lemma mem_terminated c lines :
  c <> LF -> Forall (fun p => mem c p = false) lines ->
  mem c (terminated lines) = false.
Proof.
  intros Hc. induction 1 as [|p lines Hp _ IH]; [done|]. simpl.
  rewrite !mem_app, Hp, IH. simpl.
  by destruct (Ascii.eqb_spec c LF).
Qed.

Lemma written_terminated lines acc :
  fold_left (fun written path => written ++ (path ++ nl)) lines acc
  = acc ++ terminated lines.
Proof.
  revert acc. induction lines as [|p lines IH]; intros acc; simpl.
  - by rewrite append_nil_r.
  - by rewrite IH, !append_assoc.
Qed.

End lines_facts.

Section store_facts.

Lemma elem_of_fold_add_line lines (acc : gset string) p :
  p ∈ fold_left add_line lines acc <->
  p ∈ acc \/ exists line, line ∈ lines /\ strip line = p /\ p <> "".
Proof.
  revert acc. induction lines as [|l lines IH]; intros acc; simpl.
  - split; [by left | intros [?|(line & ?%elem_of_nil & _)]; done].
  - rewrite IH. unfold add_line.
    destruct (nonempty (strip l)) eqn:Hne.
    + apply nonempty_true in Hne. rewrite elem_of_union, elem_of_singleton.
      split.
      * intros [[?| ->]|(line & Hin & Hs)]; [by left|..].
        -- right. exists l. split; [by left | done].
        -- right. exists line. split; [by right | done].
      * intros [?|(line & [->|Hin]%elem_of_cons & <- & Hp)].
        -- by left; left.
        -- by left; right.
        -- right. by exists line.
    + assert (strip l = "") as Hl by (by destruct (strip l)).
      split.
      * intros [?|(line & Hin & Hs)]; [by left|].
        right. exists line. split; [by right | done].
      * intros [?|(line & [->|Hin]%elem_of_cons & Hs & Hp)]; [by left|..].
        -- congruence.
        -- right. by exists line.
Qed.

Lemma loaded_well_kept raw p :
  p ∈ fold_left add_line (readlines (translate_newlines raw)) (∅ : gset string) ->
  well_kept p.
Proof.
  intros [?%not_elem_of_empty|(line & Hin & <- & Hne)]%elem_of_fold_add_line;
    [done|].
  split; [apply strip_idem|]. split; [done|]. split.
  - apply readlines_shape in Hin as (body & Hb & [->| ->]).
    + apply not_true_is_false. intros ?%mem_strip. congruence.
    + unfold nl. rewrite strip_snoc_space by done.
      apply not_true_is_false. intros ?%mem_strip. congruence.
  - apply not_true_is_false. intros Hm%mem_strip.
    apply (mem_readlines _ _ _ Hin) in Hm.
    by rewrite translate_newlines_no_CR in Hm.
Qed.

(** Reading back a file written from well-kept patterns gives those
    patterns. *)
Lemma reload_written (patterns : list string) :
  Forall well_kept patterns ->
  fold_left add_line
    (readlines (translate_newlines (terminated patterns))) (∅ : gset string)
  = list_to_set patterns.
Proof.
  intros Hk.
  rewrite translate_newlines_id.
  2:{ apply mem_terminated; [done|].
      eapply Forall_impl; [exact Hk|]. by intros p (_ & _ & _ & ?). }
  rewrite readlines_terminated.
  2:{ eapply Forall_impl; [exact Hk|]. by intros p (_ & _ & ? & _). }
  apply set_eq. intros p.
  rewrite elem_of_fold_add_line, elem_of_list_to_set. split.
  - intros [?%not_elem_of_empty|(line & Hin & Hs & Hne)]; [done|].
    apply list_elem_of_fmap in Hin as (q & -> & Hq).
    eapply Forall_forall in Hk as (Hsq & _); [|exact Hq].
    unfold nl in Hs. rewrite strip_snoc_space in Hs by done. congruence.
  - intros Hp. right. exists (p ++ nl). split.
    + apply list_elem_of_fmap. by exists p.
    + eapply Forall_forall in Hk as (Hsp & Hne & _); [|exact Hp].
      unfold nl. by rewrite strip_snoc_space.
Qed.

End store_facts.

(** C6. Round trip of the ignore-set store.  A missing ignore file loads
    as the empty set, with no error.  When the file loads as a set and
    can be written, saving that set writes its patterns in
    lexicographic order, each on a line of its own, and loading the
    file again gives the same set. *)
Theorem ignore_store_round_trip fs :
  (fs_exists fs IGNORE_FILE = false -> load_ignore_paths fs = Ok ∅)
  /\ (forall ignore_set,
        load_ignore_paths fs = Ok ignore_set ->
        fs_open_w fs IGNORE_FILE = None ->
        exists fs',
          save_ignore_paths ignore_set fs = Ok fs'
          /\ fs_data fs' IGNORE_FILE = inl (terminated (sorted ignore_set))
          /\ Sorted String.le (sorted ignore_set)
          /\ sorted ignore_set ≡ₚ elements ignore_set
          /\ load_ignore_paths fs' = Ok ignore_set).
Proof.
  split.
  - intros Hmissing. unfold load_ignore_paths. by rewrite Hmissing.
  - intros ignore_set Hload Hw.
    assert (Forall well_kept (sorted ignore_set)) as Hk.
    { apply Forall_forall. intros p Hp. unfold sorted in Hp.
      rewrite merge_sort_Permutation in Hp. apply elem_of_elements in Hp.
      unfold load_ignore_paths in Hload.
      destruct (fs_exists fs IGNORE_FILE).
      - unfold read_text in Hload.
        destruct (fs_data fs IGNORE_FILE) as [raw|msg]; [|done].
        injection Hload as <-. by apply loaded_well_kept in Hp.
      - injection Hload as <-. by apply not_elem_of_empty in Hp. }
    unfold save_ignore_paths. rewrite Hw. eexists. split; [reflexivity|].
    rewrite written_terminated, append_nil_l.
    split; [|split; [|split]].
    + reflexivity.
    + apply Sorted_merge_sort. apply _.
    + apply merge_sort_Permutation.
    + unfold load_ignore_paths, read_text. simpl. rewrite ?String.eqb_refl.
      f_equal. rewrite (reload_written _ Hk).
      apply set_eq. intros p. rewrite elem_of_list_to_set. unfold sorted.
      by rewrite merge_sort_Permutation, elem_of_elements.
Qed.

(** The scenario of C6: a file with a CR LF line, padded and blank lines
    and a repeated pattern; and a tree without the file. *)
Lemma ignore_store_round_trip_witness :
  let raw := "src" ++ String CR nl ++ "  build  " ++ nl ++ nl ++ "src" ++ nl ++ ".git" in
  let fs := mkFS (fun p => String.eqb p IGNORE_FILE) (fun _ => false)
              (fun p => if String.eqb p IGNORE_FILE then inl raw
                        else inr "[Errno 2] No such file or directory")
              (fun _ => None) (fun p => p) (fun _ => []) in
  let patterns : gset string := {[ "src"; "build"; ".git" ]} in
  load_ignore_paths fs = Ok patterns
  /\ fs_open_w fs IGNORE_FILE = None
  /\ (exists fs',
        save_ignore_paths patterns fs = Ok fs'
        /\ fs_data fs' IGNORE_FILE =
             inl (".git" ++ nl ++ "build" ++ nl ++ "src" ++ nl)
        /\ load_ignore_paths fs' = Ok patterns)
  /\ load_ignore_paths demo_fs_without_store = Ok ∅.
Proof.
  intros raw fs patterns.
  assert (load_ignore_paths fs = Ok patterns) as Hload by (vm_compute; reflexivity).
  split; [exact Hload|]. split; [reflexivity|]. split.
  - destruct (proj2 (ignore_store_round_trip fs) patterns Hload eq_refl)
      as (fs' & Hsave & Hdata & _ & _ & Hreload).
    exists fs'. split; [exact Hsave|]. split; [|exact Hreload].
    etrans; [exact Hdata|]. vm_compute. reflexivity.
  - exact (proj1 (ignore_store_round_trip demo_fs_without_store) eq_refl).
Defined.

(** ** The individual list loader *)

Section loader_facts.
Variable fs : FS.

Lemma candidates_cons script line lines :
  candidates script (line :: lines) =
    if nonempty (strip line) && negb (script && startswith (strip line) "#")
    then strip line :: candidates script lines
    else candidates script lines.
Proof. reflexivity. Qed.

Lemma valid_paths_cons p cands :
  valid_paths fs (p :: cands) =
    if fs_isfile fs p then parse p :: valid_paths fs cands
    else valid_paths fs cands.
Proof. unfold valid_paths. simpl. by destruct (fs_isfile fs p). Qed.

Lemma warnings_cons src p cands :
  warnings fs src (p :: cands) =
    if fs_isfile fs p then warnings fs src cands
    else invalid_warning p src :: warnings fs src cands.
Proof. unfold warnings. simpl. by destruct (fs_isfile fs p). Qed.

Lemma target_loop_spec lines file_paths :
  target_loop fs lines file_paths =
    (warnings fs TARGET_FILES_FILE (candidates false lines),
     Ok (file_paths ++ valid_paths fs (candidates false lines))%list).
Proof.
  revert file_paths. induction lines as [|line lines IH]; intros acc.
  - unfold ret. simpl. by rewrite app_nil_r.
  - cbn [target_loop]. rewrite candidates_cons. cbn [andb negb].
    rewrite andb_true_r.
    destruct (nonempty (strip line)); [|apply IH].
    rewrite valid_paths_cons, warnings_cons.
    destruct (fs_isfile fs (strip line)).
    + by rewrite IH, <- app_assoc.
    + by rewrite bind_print, IH.
Qed.

Lemma script_loop_spec lines file_paths :
  script_loop fs lines file_paths =
    (warnings fs INDIVIDUAL_FILES_SCRIPT (candidates true lines),
     Ok (file_paths ++ valid_paths fs (candidates true lines))%list).
Proof.
  revert file_paths. induction lines as [|line lines IH]; intros acc.
  - unfold ret. simpl. by rewrite app_nil_r.
  - cbn [script_loop]. rewrite candidates_cons. cbn [andb].
    destruct (startswith (strip line) "#"); cbn [orb negb];
      [rewrite andb_false_r; apply IH|].
    rewrite andb_true_r.
    destruct (nonempty (strip line)); cbn [negb]; [|apply IH].
    rewrite valid_paths_cons, warnings_cons.
    destruct (fs_isfile fs (strip line)).
    + by rewrite IH, <- app_assoc.
    + by rewrite bind_print, IH.
Qed.

(** What the fallback prints and returns, from the lines of the script. *)
Lemma load_from_script_spec linesB :
  source fs INDIVIDUAL_FILES_SCRIPT linesB ->
  load_from_script fs [] =
    match valid_paths fs (candidates true linesB) with
    | [] =>
        ((if fs_exists fs INDIVIDUAL_FILES_SCRIPT
          then warnings fs INDIVIDUAL_FILES_SCRIPT (candidates true linesB)
               ++ [no_valid_notice INDIVIDUAL_FILES_SCRIPT; no_paths_notice]
          else [no_paths_notice])%list,
         Ok None)
    | valid =>
        ((warnings fs INDIVIDUAL_FILES_SCRIPT (candidates true linesB)
          ++ [loaded_notice (length valid) INDIVIDUAL_FILES_SCRIPT])%list,
         Ok (Some valid))
    end.
Proof.
  unfold source, load_from_script.
  destruct (fs_exists fs INDIVIDUAL_FILES_SCRIPT).
  - intros (text & Hread & ->). unfold open_lines. rewrite Hread, bind_ret.
    rewrite script_loop_spec, bind_pair_ok. rewrite app_nil_l.
    destruct (valid_paths fs _) as [|v valid]; by rewrite !bind_print.
  - intros ->. by rewrite bind_print.
Qed.

End loader_facts.

Lemma elem_of_candidates script lines p :
  p ∈ candidates script lines <->
  exists line, line ∈ lines /\ p = strip line /\ p <> "" /\
               (script = true -> startswith p "#" = false).
Proof.
  unfold candidates. rewrite list_elem_of_In, filter_In, <- list_elem_of_In.
  rewrite list_elem_of_fmap, andb_true_iff, nonempty_true, negb_true_iff.
  split.
  - intros ((line & -> & Hin) & Hne & Hhash). exists line.
    repeat split; [done..|]. intros ->. done.
  - intros (line & Hin & -> & Hne & Hhash). split; [by exists line|].
    split; [done|]. destruct script; [by rewrite Hhash | done].
Qed.





(** * Further properties *)

(** ** The directory walker and the bulk pipeline *)

Section walker_facts.
Variable fs : FS.

Lemma walk_spec target_path (ignore_set : gset string) found acc :
  walk fs target_path ignore_set found acc =
    (acc ++ List.filter
              (fun f => fs_isfile fs (str f)
                        && negb (should_ignore fs f target_path ignore_set))
              found)%list.
Proof.
  revert acc. induction found as [|f found IH]; intros acc; simpl.
  - by rewrite app_nil_r.
  - destruct (fs_isfile fs (str f)); simpl; [|apply IH].
    destruct (should_ignore fs f target_path ignore_set); simpl; [apply IH|].
    by rewrite IH, <- app_assoc.
Qed.

Lemma should_ignore_false_spec file_path target_path (ignore_set : gset string) :
  should_ignore fs file_path target_path ignore_set = false <->
  exists rel, relative_to file_path target_path = Ok rel /\
    forall P, P ∈ ignore_set ->
      (if isabs P then startswith (str (fs_resolve fs file_path)) P
       else startswith (as_posix rel) P) = false.
Proof.
  unfold should_ignore.
  destruct (relative_to file_path target_path) as [rel|e].
  - rewrite <- not_true_iff_false, ignore_loop_spec. split.
    + intros Hno. exists rel. split; [done|]. intros P HP.
      apply not_true_is_false. intros Hm. apply Hno. exists P.
      split; [by apply elem_of_elements | done].
    + intros (rel' & [= <-] & Hall) (P & HP%elem_of_elements & Hm).
      by rewrite (Hall P HP) in Hm.
  - split; [done | by intros (rel & ? & _)].
Qed.

End walker_facts.

(** X1. The scan returns exactly the enumerated paths that are regular
    files, lie under the root and are matched by no pattern: no relative
    pattern is a prefix of the root-relative path, no absolute pattern
    a prefix of the resolved path. *)
Theorem scan_returns_unmatched_files fs target_folder (ignore_set : gset string) f :
  f ∈ get_all_files fs target_folder ignore_set <->
  f ∈ fs_rglob fs (parse target_folder)
  /\ fs_isfile fs (str f) = true
  /\ exists rel, relative_to f (parse target_folder) = Ok rel /\
       forall P, P ∈ ignore_set ->
         (if isabs P then startswith (str (fs_resolve fs f)) P
          else startswith (as_posix rel) P) = false.
Proof.
  unfold get_all_files. rewrite walk_spec, app_nil_l.
  rewrite list_elem_of_In, filter_In, <- list_elem_of_In.
  rewrite andb_true_iff, negb_true_iff, should_ignore_false_spec.
  tauto.
Qed.

(** X2. The bulk pipeline cannot fail on a path: whatever the
    enumeration holds, every file the scan keeps is under the root, so
    serializing the result of the scan returns a prompt. *)
Theorem scan_then_serialize_returns fs target_folder (ignore_set : gset string) :
  Forall (under (parse target_folder)) (get_all_files fs target_folder ignore_set)
  /\ outcome (generate_prompt fs target_folder
                (get_all_files fs target_folder ignore_set)) =
       Ok (render (omap (entry_of fs (relative_name (parse target_folder)))
                     (get_all_files fs target_folder ignore_set))).
Proof.
  assert (Forall (under (parse target_folder))
            (get_all_files fs target_folder ignore_set)) as Hu.
  { apply Forall_forall. intros f Hf. unfold get_all_files in Hf.
    rewrite walk_spec, app_nil_l in Hf.
    apply list_elem_of_In, filter_In in Hf as [_ [_ Hkeep]%andb_true_iff].
    apply negb_true_iff, should_ignore_false_spec in Hkeep as (rel & Hrel & _).
    by exists rel. }
  split; [exact Hu|]. by rewrite (generate_prompt_spec fs _ _ Hu).
Qed.

(** X3. Pattern sets compose by union: a file is ignored under the
    union of two sets exactly when it is ignored under one of them.  So
    adding patterns never brings an ignored file back. *)
Theorem should_ignore_union fs file_path target_folder (A B : gset string) :
  should_ignore fs file_path target_folder (A ∪ B) =
    should_ignore fs file_path target_folder A
    || should_ignore fs file_path target_folder B.
Proof.
  apply eq_true_iff_eq. rewrite orb_true_iff. unfold should_ignore.
  destruct (relative_to file_path target_folder) as [rel|e]; [|tauto].
  rewrite !ignore_loop_spec. split.
  - intros (P & [HP|HP]%elem_of_elements%elem_of_union & Hm);
      [left | right]; exists P; by rewrite elem_of_elements.
  - intros [(P & HP%elem_of_elements & Hm)|(P & HP%elem_of_elements & Hm)];
      exists P; (split; [apply elem_of_elements, elem_of_union; auto | done]).
Qed.

Lemma startswith_trans s p q :
  startswith s p = true -> startswith p q = true -> startswith s q = true.
Proof.
  rewrite !startswith_spec. intros [t ->] [u ->]. exists (u ++ t).
  apply append_assoc.
Qed.

Lemma isabs_prefix p q :
  q <> "" -> startswith p q = true -> isabs p = isabs q.
Proof.
  destruct q as [|c q]; [done|]. intros _. destruct p as [|d p]; [done|].
  simpl. unfold isabs. simpl.
  destruct (Ascii.eqb_spec c d) as [->|]; done.
Qed.

(** X4. A shorter pattern ignores more: when the pattern [Q] is a
    string prefix of the pattern [P], every file that [P] alone ignores
    is ignored by [Q] alone. *)
Theorem shorter_pattern_ignores_more fs file_path target_folder P Q :
  startswith P Q = true ->
  should_ignore fs file_path target_folder {[ P ]} = true ->
  should_ignore fs file_path target_folder {[ Q ]} = true.
Proof.
  intros Hpre. unfold should_ignore.
  destruct (relative_to file_path target_folder) as [rel|e]; [|done].
  rewrite !ignore_loop_spec.
  intros (P' & ->%elem_of_elements%elem_of_singleton & Hm).
  exists Q. split; [by apply elem_of_elements, elem_of_singleton|].
  destruct (decide (Q = "")) as [->|Hne].
  - change (isabs "") with false. apply startswith_empty.
  - rewrite <- (isabs_prefix P Q Hne Hpre).
    destruct (isabs P); eapply startswith_trans; done.
Qed.

Lemma shorter_pattern_ignores_more_witness :
  startswith "build/out" "build" = true
  /\ should_ignore session_fs (parse "/proj/build/out.o") (parse "/proj")
       {[ "build/out" ]} = true
  /\ should_ignore session_fs (parse "/proj/build/out.o") (parse "/proj")
       {[ "build" ]} = true.
Proof.
  split; [reflexivity|]. split; [reflexivity|].
  exact (shorter_pattern_ignores_more session_fs (parse "/proj/build/out.o")
           (parse "/proj") "build/out" "build" eq_refl eq_refl).
Defined.

(** ** The ignore-set store and its prompt *)

Lemma load_ignore_paths_elem fs ignore_set p :
  load_ignore_paths fs = Ok ignore_set -> p ∈ ignore_set -> well_kept p.
Proof.
  unfold load_ignore_paths, read_text. intros Hload Hp.
  destruct (fs_exists fs IGNORE_FILE).
  - destruct (fs_data fs IGNORE_FILE) as [raw|msg]; [|done].
    injection Hload as <-. by apply loaded_well_kept in Hp.
  - injection Hload as <-. by apply not_elem_of_empty in Hp.
Qed.

(** X5. Whatever the ignore file holds, a pattern that
    [load_ignore_paths] returns is not empty, has no white space at
    either end and holds neither line feed nor carriage return. *)
Theorem loaded_patterns_clean fs ignore_set :
  load_ignore_paths fs = Ok ignore_set ->
  forall p, p ∈ ignore_set ->
    p <> "" /\ strip p = p /\ mem LF p = false /\ mem CR p = false.
Proof.
  intros Hload p Hp.
  destruct (load_ignore_paths_elem fs ignore_set p Hload Hp) as (? & ? & ? & ?).
  done.
Qed.

Lemma loaded_patterns_clean_witness :
  load_ignore_paths session_fs = Ok {[ "build"; ".git" ]}
  /\ ".git" <> "" /\ strip ".git" = ".git".
Proof.
  assert (load_ignore_paths session_fs = Ok {[ "build"; ".git" ]}) as Hload
    by (vm_compute; reflexivity).
  split; [exact Hload|].
  destruct (loaded_patterns_clean session_fs _ Hload ".git") as (? & ? & _).
  - apply elem_of_union. right. by apply elem_of_singleton.
  - done.
Defined.

Lemma save_then_load fs (ignore_set : gset string) :
  (forall p, p ∈ ignore_set -> well_kept p) ->
  fs_open_w fs IGNORE_FILE = None ->
  exists fs', save_ignore_paths ignore_set fs = Ok fs'
              /\ load_ignore_paths fs' = Ok ignore_set.
Proof.
  intros Hk Hw. unfold save_ignore_paths. rewrite Hw. eexists.
  split; [reflexivity|].
  rewrite written_terminated, append_nil_l.
  unfold load_ignore_paths, read_text. simpl. rewrite ?String.eqb_refl.
  f_equal. rewrite reload_written.
  - apply set_eq. intros p. rewrite elem_of_list_to_set. unfold sorted.
    by rewrite merge_sort_Permutation, elem_of_elements.
  - apply Forall_forall. intros p Hp. apply Hk. unfold sorted in Hp.
    by rewrite merge_sort_Permutation, elem_of_elements in Hp.
Qed.

(** X6. Saving then loading gives the set back, for every set of
    patterns that are not empty, carry no white space at either end and
    hold neither line feed nor carriage return, when the file can be
    written. *)
Theorem saved_patterns_load_back fs (ignore_set : gset string) :
  (forall p, p ∈ ignore_set ->
     p <> "" /\ strip p = p /\ mem LF p = false /\ mem CR p = false) ->
  fs_open_w fs IGNORE_FILE = None ->
  exists fs', save_ignore_paths ignore_set fs = Ok fs'
              /\ load_ignore_paths fs' = Ok ignore_set.
Proof.
  intros Hk Hw. apply save_then_load; [|done].
  intros p Hp. destruct (Hk p Hp) as (? & ? & ? & ?). by repeat split.
Qed.

Lemma saved_patterns_load_back_witness :
  let patterns : gset string := {[ "src/gen"; "/tmp/cache" ]} in
  fs_open_w demo_fs_without_store IGNORE_FILE = None
  /\ exists fs', save_ignore_paths patterns demo_fs_without_store = Ok fs'
                 /\ load_ignore_paths fs' = Ok patterns.
Proof.
  intros patterns. split; [reflexivity|].
  apply saved_patterns_load_back; [|reflexivity].
  intros p [->%elem_of_singleton| ->%elem_of_singleton]%elem_of_union;
    repeat split; done.
Defined.

Section prompt_facts.

Lemma written_then_snd {A} out (k : list string * console A) :
  snd (written_then out k) = snd k.
Proof. reflexivity. Qed.

Lemma ignore_input_loop_done (existing : gset string) before line rest :
  Forall (fun l => is_done l = false) before ->
  is_done line = true ->
  snd (ignore_input_loop existing (before ++ line :: rest)) =
    Returned (existing ∪ list_to_set (entered before)) rest.
Proof.
  intros Hbefore Hline. revert existing.
  induction Hbefore as [|l before Hl _ IH]; intros existing.
  - cbn [app ignore_input_loop]. unfold is_done in Hline. rewrite Hline.
    cbn [snd entered map List.filter list_to_set]. f_equal.
    apply set_eq. intros p. rewrite elem_of_union.
    split; [by left | by intros [?|?%not_elem_of_empty]].
  - cbn [app ignore_input_loop]. unfold is_done in Hl. rewrite Hl.
    unfold entered. cbn [map List.filter]. fold (entered before).
    destruct (nonempty (strip l)) eqn:Hne; cbn [negb].
    + case_bool_decide as Hin; rewrite written_then_snd, IH; f_equal;
        apply set_eq; intros p; cbn [list_to_set];
        rewrite !elem_of_union, elem_of_singleton.
      * split; [tauto|]. intros [?|[->|?]]; tauto.
      * tauto.
    + by rewrite written_then_snd, IH.
Qed.

Lemma ignore_input_loop_eof (existing : gset string) stdin :
  Forall (fun l => is_done l = false) stdin ->
  snd (ignore_input_loop existing stdin) = EOFError.
Proof.
  intros Hall. revert existing.
  induction Hall as [|l stdin Hl _ IH]; intros existing; [done|].
  cbn [ignore_input_loop]. unfold is_done in Hl. rewrite Hl.
  destruct (nonempty (strip l)); cbn [negb]; [|by rewrite written_then_snd].
  case_bool_decide; by rewrite written_then_snd.
Qed.

(** Every run that returns has read a line that ends the loop. *)
Lemma ignore_input_loop_returned (existing s : gset string) stdin rest :
  snd (ignore_input_loop existing stdin) = Returned s rest ->
  exists before line,
    stdin = (before ++ line :: rest)%list
    /\ Forall (fun l => is_done l = false) before
    /\ is_done line = true.
Proof.
  revert existing. induction stdin as [|l stdin IH]; intros existing; [done|].
  cbn [ignore_input_loop]. fold (is_done l).
  destruct (is_done l) eqn:Hl.
  - intros [= <- <-]. by exists [], l.
  - intros Hrun.
    assert (exists existing', snd (ignore_input_loop existing' stdin) = Returned s rest)
      as [existing' Hrun'].
    { destruct (nonempty (strip l)); cbn [negb] in Hrun;
        [|eexists; exact Hrun].
      case_bool_decide; eexists; exact Hrun. }
    apply IH in Hrun' as (before & line & -> & Hbefore & Hline).
    exists (l :: before), line. split; [done|]. split; [by constructor | done].
Qed.

End prompt_facts.

(** X7. [prompt_for_ignore_paths] reads up to the first line that is
    [done] once stripped and put in lower case.  It returns the set it
    was given, extended with the stripped, non-blank lines read before
    that one, and leaves the lines after it unread. *)
Theorem prompt_collects_until_done (existing : gset string) before line rest :
  Forall (fun l => lower (strip l) <> "done") before ->
  lower (strip line) = "done" ->
  snd (prompt_for_ignore_paths existing (before ++ line :: rest)) =
    Returned (existing ∪ list_to_set (List.filter nonempty (map strip before))) rest.
Proof.
  intros Hbefore Hline. unfold prompt_for_ignore_paths.
  rewrite written_then_snd. apply ignore_input_loop_done.
  - eapply Forall_impl; [exact Hbefore|]. intros l Hl. unfold is_done.
    by apply String.eqb_neq.
  - unfold is_done. by apply String.eqb_eq.
Qed.

Lemma prompt_collects_until_done_witness :
  Forall (fun l => lower (strip l) <> "done") ["  src "; ""; "build"]
  /\ lower (strip " DoNe") = "done"
  /\ snd (prompt_for_ignore_paths {[ "build" ]}
            (["  src "; ""; "build"] ++ " DoNe" :: ["later"])) =
       Returned {[ "build"; "src" ]} ["later"].
Proof.
  assert (Forall (fun l => lower (strip l) <> "done") ["  src "; ""; "build"])
    as Hbefore by (repeat constructor; discriminate).
  split; [exact Hbefore|]. split; [reflexivity|].
  etrans; [exact (prompt_collects_until_done {[ "build" ]} _ " DoNe" ["later"]
                    Hbefore eq_refl)|].
  vm_compute. reflexivity.
Defined.

(** X8. Without a line that is [done], the prompt never returns a set:
    it reads every line and ends in [EOFError]. *)
Theorem prompt_without_done_raises (existing : gset string) stdin :
  Forall (fun l => lower (strip l) <> "done") stdin ->
  snd (prompt_for_ignore_paths existing stdin) = EOFError.
Proof.
  intros Hall. unfold prompt_for_ignore_paths. rewrite written_then_snd.
  apply ignore_input_loop_eof.
  eapply Forall_impl; [exact Hall|]. intros l Hl. unfold is_done.
  by apply String.eqb_neq.
Qed.

Lemma prompt_without_done_raises_witness :
  Forall (fun l => lower (strip l) <> "done") ["src"; "done with it"]
  /\ snd (prompt_for_ignore_paths ∅ ["src"; "done with it"]) = EOFError.
Proof.
  assert (Forall (fun l => lower (strip l) <> "done") ["src"; "done with it"])
    as Hall by (repeat constructor; discriminate).
  split; [exact Hall|]. exact (prompt_without_done_raises ∅ _ Hall).
Defined.

Lemma ignore_input_loop_patterns (existing s : gset string) stdin rest :
  snd (ignore_input_loop existing stdin) = Returned s rest ->
  existing ⊆ s
  /\ forall p, p ∈ s ->
       p ∈ existing
       \/ (p <> "" /\ strip p = p /\ lower p <> "done"
           /\ exists l, l ∈ stdin /\ p = strip l).
Proof.
  intros Hrun.
  pose proof Hrun as (before & line & -> & Hbefore & Hline)%ignore_input_loop_returned.
  rewrite (ignore_input_loop_done existing before line rest Hbefore Hline) in Hrun.
  injection Hrun as <-. split; [set_solver|].
  intros p [?|Hp%elem_of_list_to_set]%elem_of_union; [by left|]. right.
  unfold entered in Hp.
  apply list_elem_of_In, filter_In in Hp as [Hp Hne].
  apply list_elem_of_In, list_elem_of_fmap in Hp as (l & -> & Hl).
  split; [by apply nonempty_true|]. split; [apply strip_idem|]. split.
  - eapply Forall_forall in Hbefore; [|exact Hl]. unfold is_done in Hbefore.
    by apply String.eqb_neq.
  - exists l. split; [|done]. apply elem_of_app. by left.
Qed.

(** X9. The prompt only adds, and only clean patterns: the set it
    returns holds the set it was given, and every other pattern in it is
    a stripped input line that is not empty and is not [done] in any
    letter case.  The empty pattern cannot be entered. *)
Theorem prompt_adds_clean_patterns (existing s : gset string) stdin rest :
  snd (prompt_for_ignore_paths existing stdin) = Returned s rest ->
  existing ⊆ s
  /\ forall p, p ∈ s ->
       p ∈ existing
       \/ (p <> "" /\ strip p = p /\ lower p <> "done"
           /\ exists l, l ∈ stdin /\ p = strip l).
Proof.
  unfold prompt_for_ignore_paths. rewrite written_then_snd.
  apply ignore_input_loop_patterns.
Qed.

Lemma prompt_adds_clean_patterns_witness :
  snd (prompt_for_ignore_paths {[ "build" ]} ["  src "; ""; "done"]) =
    Returned {[ "build"; "src" ]} []
  /\ ({[ "build" ]} : gset string) ⊆ {[ "build"; "src" ]}.
Proof.
  assert (snd (prompt_for_ignore_paths {[ "build" ]} ["  src "; ""; "done"]) =
            Returned {[ "build"; "src" ]} []) as Hrun by (vm_compute; reflexivity).
  split; [exact Hrun|].
  exact (proj1 (prompt_adds_clean_patterns _ _ _ _ Hrun)).
Defined.

(** X10. What is entered is what the next run loads.  When the ignore
    file loads as a set, the prompt returns on input lines that hold
    neither line feed nor carriage return, and the file can be written,
    then saving the returned set and loading the file again gives that
    very set. *)
Theorem entered_patterns_persist fs (existing s : gset string) stdin rest :
  load_ignore_paths fs = Ok existing ->
  snd (prompt_for_ignore_paths existing stdin) = Returned s rest ->
  Forall (fun l => mem LF l = false /\ mem CR l = false) stdin ->
  fs_open_w fs IGNORE_FILE = None ->
  exists fs', save_ignore_paths s fs = Ok fs' /\ load_ignore_paths fs' = Ok s.
Proof.
  intros Hload Hrun Hlines Hw. apply save_then_load; [|done].
  intros p Hp.
  unfold prompt_for_ignore_paths in Hrun. rewrite written_then_snd in Hrun.
  destruct (ignore_input_loop_patterns existing s stdin rest Hrun) as [_ Hs].
  destruct (Hs p Hp) as [Hold|(Hne & Hstrip & _ & l & Hl & ->)].
  - by eapply load_ignore_paths_elem.
  - eapply Forall_forall in Hlines as [HLF HCR]; [|exact Hl].
    split; [done|]. split; [done|].
    split; apply not_true_is_false; intros Hm%mem_strip; congruence.
Qed.

Lemma entered_patterns_persist_witness :
  let stdin := [" dist"; "build"; "done"] in
  load_ignore_paths session_fs = Ok {[ "build"; ".git" ]}
  /\ snd (prompt_for_ignore_paths {[ "build"; ".git" ]} stdin) =
       Returned {[ "build"; ".git"; "dist" ]} []
  /\ Forall (fun l => mem LF l = false /\ mem CR l = false) stdin
  /\ fs_open_w session_fs IGNORE_FILE = None
  /\ exists fs', save_ignore_paths {[ "build"; ".git"; "dist" ]} session_fs = Ok fs'
                 /\ load_ignore_paths fs' = Ok {[ "build"; ".git"; "dist" ]}.
Proof.
  intros stdin.
  assert (load_ignore_paths session_fs = Ok {[ "build"; ".git" ]}) as Hload
    by (vm_compute; reflexivity).
  assert (snd (prompt_for_ignore_paths {[ "build"; ".git" ]} stdin) =
            Returned {[ "build"; ".git"; "dist" ]} []) as Hrun
    by (vm_compute; reflexivity).
  assert (Forall (fun l => mem LF l = false /\ mem CR l = false) stdin) as Hlines
    by (repeat constructor).
  split; [exact Hload|]. split; [exact Hrun|]. split; [exact Hlines|].
  split; [reflexivity|].
  exact (entered_patterns_persist session_fs _ _ stdin [] Hload Hrun Hlines eq_refl).
Defined.

(** ** More on the serializers *)

Lemma relative_to_raises self other e :
  relative_to self other = Raise e -> e = ValueError.
Proof.
  unfold relative_to. destruct (String.eqb _ _); [|by intros [= <-]].
  destruct (strip_prefix _ _); [done | by intros [= <-]].
Qed.

Lemma bulk_loop_app fs target_path xs ys file_entries :
  bulk_loop fs target_path (xs ++ ys) file_entries =
    (collected <- bulk_loop fs target_path xs file_entries ;;
     bulk_loop fs target_path ys collected).
Proof.
  revert file_entries. induction xs as [|f xs IH]; intros acc.
  - cbn [app bulk_loop]. by rewrite bind_ret.
  - cbn [app bulk_loop].
    destruct (relative_to f target_path) as [rel|e]; [|done].
    rewrite !bind_lift_ok.
    destruct (read_text fs (str f)) as [contents|msg].
    + destruct (negb (nonempty (strip contents))); apply IH.
    + rewrite !bind_print, IH. unfold stdout, outcome, bind.
      destruct (bulk_loop fs target_path xs acc) as [out [entries|e]];
        cbn [fst snd]; [|done].
      by destruct (bulk_loop fs target_path ys entries).
Qed.

Lemma individual_loop_app fs xs ys file_entries :
  individual_loop fs (xs ++ ys) file_entries =
    (collected <- individual_loop fs xs file_entries ;;
     individual_loop fs ys collected).
Proof.
  revert file_entries. induction xs as [|f xs IH]; intros acc.
  - cbn [app individual_loop]. by rewrite bind_ret.
  - cbn [app individual_loop].
    destruct (read_text fs (str f)) as [contents|msg].
    + destruct (negb (nonempty (strip contents))); apply IH.
    + rewrite !bind_print, IH. unfold stdout, outcome, bind.
      destruct (individual_loop fs xs acc) as [out [entries|e]];
        cbn [fst snd]; [|done].
      by destruct (individual_loop fs ys entries).
Qed.

(** X11. Both loops run through a list in order: serializing a
    concatenation is serializing the first list, then the second one
    from the entries collected so far.  An exception of the first part
    stops the run there. *)
Theorem loops_compose fs target_path xs ys file_entries :
  bulk_loop fs target_path (xs ++ ys) file_entries =
    (collected <- bulk_loop fs target_path xs file_entries ;;
     bulk_loop fs target_path ys collected)
  /\ individual_loop fs (xs ++ ys) file_entries =
       (collected <- individual_loop fs xs file_entries ;;
        individual_loop fs ys collected).
Proof. split; [apply bulk_loop_app | apply individual_loop_app]. Qed.

(** X12. The bulk serializer stops at the first file outside the root,
    whatever that file holds and whatever follows it: it raises
    [ValueError], having printed the diagnostics of the files before
    it. *)
Theorem bulk_aborts_outside_root fs target_folder before bad after e :
  Forall (under (parse target_folder)) before ->
  relative_to bad (parse target_folder) = Raise e ->
  generate_prompt fs target_folder (before ++ bad :: after) =
    (omap (diagnostic_of fs) before, Raise ValueError).
Proof.
  intros Hu Hbad. unfold generate_prompt.
  rewrite bulk_loop_app.
  rewrite (bulk_loop_spec fs _ _ _ Hu), bind_pair_ok.
  cbn [bulk_loop]. rewrite Hbad. apply relative_to_raises in Hbad as ->.
  unfold bind, lift, stdout, outcome. cbn [fst snd]. by rewrite !app_nil_r.
Qed.

Lemma bulk_aborts_outside_root_witness :
  let missing := parse "/proj/missing.txt" in
  let outside := parse "/other/b.txt" in
  Forall (under (parse "/proj")) [missing]
  /\ relative_to outside (parse "/proj") = Raise ValueError
  /\ generate_prompt demo_fs "/proj" ([missing] ++ outside :: [parse "/proj/a.txt"]) =
       (["Error reading /proj/missing.txt: [Errno 2] No such file or directory"],
        Raise ValueError).
Proof.
  intros missing outside.
  assert (Forall (under (parse "/proj")) [missing]) as Hu
    by (repeat constructor; eexists; reflexivity).
  split; [exact Hu|]. split; [reflexivity|].
  exact (bulk_aborts_outside_root demo_fs "/proj" [missing] outside
           [parse "/proj/a.txt"] ValueError Hu eq_refl).
Defined.

(** X13. The individual serializer always returns a prompt, and
    accounts for every file: a file gives an entry, or a diagnostic, or
    is blank, so the three numbers add up to the number of files. *)
Theorem individual_accounts_for_files fs files :
  exists file_entries,
    outcome (individual_loop fs files []) = Ok file_entries
    /\ outcome (generate_prompt_individual fs files) = Ok (render file_entries)
    /\ length file_entries
       + length (stdout (generate_prompt_individual fs files))
       + length (List.filter (blank fs) files)
       = length files.
Proof.
  rewrite individual_loop_spec, generate_prompt_individual_spec.
  eexists. split; [reflexivity|]. split; [reflexivity|].
  unfold stdout. cbn [fst app].
  induction files as [|f files IH]; [done|].
  cbn [length List.filter omap list_omap].
  unfold entry_of at 1, diagnostic_of at 1, blank at 1.
  destruct (read_text fs (str f)) as [contents|msg].
  - destruct (nonempty (strip contents)); cbn [negb length]; simpl in *; lia.
  - cbn [length]. simpl in *. lia.
Qed.

(** ** Paths and their strings *)

Section path_facts.

Lemma splitroot_relative c r :
  c <> "/"%char -> splitroot (String c r) = ("", String c r).
Proof.
  intros Hc. destruct c as [[] [] [] [] [] [] [] []]; try reflexivity.
  by destruct Hc.
Qed.

Lemma splitroot_one_slash c r :
  c <> "/"%char -> splitroot (String "/" (String c r)) = ("/", String c r).
Proof.
  intros Hc. destruct c as [[] [] [] [] [] [] [] []]; try reflexivity.
  by destruct Hc.
Qed.

Lemma splitroot_two_slashes c r :
  c <> "/"%char ->
  splitroot (String "/" (String "/" (String c r))) = ("//", String c r).
Proof.
  intros Hc. destruct c as [[] [] [] [] [] [] [] []]; try reflexivity.
  by destruct Hc.
Qed.

Lemma split_single sep x : mem sep x = false -> split sep x = [x].
Proof.
  induction x as [|c x IH]; [done|]. rewrite mem_cons.
  intros [Hc Hx]%orb_false_iff. cbn [split].
  rewrite Ascii.eqb_sym, Hc. by rewrite (IH Hx).
Qed.

Lemma split_app_sep sep x t :
  mem sep x = false -> split sep (x ++ String sep t) = x :: split sep t.
Proof.
  induction x as [|c x IH].
  - intros _. rewrite append_nil_l. cbn [split]. by rewrite Ascii.eqb_refl.
  - rewrite mem_cons. intros [Hc Hx]%orb_false_iff.
    rewrite append_cons. cbn [split]. rewrite Ascii.eqb_sym, Hc.
    by rewrite (IH Hx).
Qed.

Lemma split_join names :
  names <> [] -> Forall (fun x => mem "/" x = false) names ->
  split "/" (join "/" names) = names.
Proof.
  intros Hne Hall. induction Hall as [|x names Hx Hall IH]; [done|].
  destruct names as [|y names].
  - by apply split_single.
  - change (join "/" (x :: y :: names))
      with (x ++ String "/" (join "/" (y :: names))).
    rewrite split_app_sep by done. by rewrite IH.
Qed.

Lemma join_head x names :
  wf_name x -> exists c r, join "/" (x :: names) = String c r /\ c <> "/"%char.
Proof.
  intros (Hne & _ & Hslash). destruct x as [|c x]; [done|].
  rewrite mem_cons in Hslash. apply orb_false_iff in Hslash as [Hc _].
  exists c. destruct names as [|y names].
  - exists x. split; [done|]. intros ->. by rewrite Ascii.eqb_refl in Hc.
  - exists (x ++ "/" ++ join "/" (y :: names)).
    split; [done|]. intros ->. by rewrite Ascii.eqb_refl in Hc.
Qed.

Lemma filter_wf_names names :
  Forall wf_name names ->
  List.filter (fun x => nonempty x && negb (String.eqb x ".")) names = names.
Proof.
  induction 1 as [|x names (Hne & Hdot & _) _ IH]; [done|]. cbn [List.filter].
  apply nonempty_true in Hne. apply String.eqb_neq in Hdot.
  by rewrite Hne, Hdot, IH.
Qed.

(** The components of a well-formed, non-empty tail come back from
    their joined string. *)
Lemma parse_tail x names :
  Forall wf_name (x :: names) ->
  List.filter (fun x => nonempty x && negb (String.eqb x "."))
    (split "/" (join "/" (x :: names))) = x :: names.
Proof.
  intros Hwf. rewrite split_join; [by apply filter_wf_names | done |].
  eapply Forall_impl; [exact Hwf|]. by intros y (_ & _ & ?).
Qed.

(** [Path(str(p)) == p] *)
Lemma parse_str p : wf_path p -> parse (str p) = p.
Proof.
  destruct p as [rt names]. intros [Hroot Hnames]. cbn [root tail] in *.
  unfold str. cbn [root tail].
  destruct names as [|x names].
  - destruct Hroot as [->|[->| ->]]; reflexivity.
  - pose proof (parse_tail x names Hnames) as Htail.
    destruct (join_head x names) as (c & r & Hjoin & Hc);
      [by apply Forall_cons in Hnames as [? _]|].
    rewrite Hjoin in *.
    destruct Hroot as [->|[->| ->]].
    + rewrite append_nil_l. cbn [nonempty]. unfold parse.
      by rewrite splitroot_relative, Htail.
    + change ("/" ++ String c r) with (String "/" (String c r)).
      cbn [nonempty]. unfold parse.
      by rewrite splitroot_one_slash, Htail.
    + change ("//" ++ String c r) with (String "/" (String "/" (String c r))).
      cbn [nonempty]. unfold parse.
      by rewrite splitroot_two_slashes, Htail.
Qed.

End path_facts.

(** ** More on the individual list loader *)

Section loader_more.
Variable fs : FS.

Lemma source_or_unreadable p :
  (exists lines, source fs p lines)
  \/ (fs_exists fs p = true /\ exists msg, read_text fs p = inr msg).
Proof.
  unfold source. destruct (fs_exists fs p).
  - destruct (read_text fs p) as [text|msg] eqn:Hread.
    + left. by exists (readlines text), text.
    + right. split; [done | by exists msg].
  - left. by exists [].
Qed.

Lemma elem_of_valid_paths cands p :
  p ∈ valid_paths fs cands <->
  exists x, x ∈ cands /\ p = parse x /\ fs_isfile fs x = true.
Proof.
  unfold valid_paths. rewrite list_elem_of_fmap. split.
  - intros (x & -> & [Hx Hfile]%list_elem_of_In%filter_In).
    exists x. by rewrite list_elem_of_In.
  - intros (x & Hx & -> & Hfile). exists x. split; [done|].
    apply list_elem_of_In, filter_In. by rewrite <- list_elem_of_In.
Qed.

(** The outcome of the loader from the lines of source A alone. *)
Lemma load_outcome_from_target linesA :
  source fs TARGET_FILES_FILE linesA ->
  outcome (load_individual_files_from_file fs) =
    match valid_paths fs (candidates false linesA) with
    | [] => outcome (load_from_script fs [])
    | valid => Ok (Some valid)
    end.
Proof.
  intros HA. unfold source in HA. unfold load_individual_files_from_file.
  destruct (fs_exists fs TARGET_FILES_FILE).
  - destruct HA as (text & Hread & ->). unfold open_lines.
    rewrite Hread, bind_ret, target_loop_spec, bind_pair_ok, app_nil_l.
    destruct (valid_paths fs _) as [|v valid]; by rewrite bind_print.
  - by rewrite HA.
Qed.

End loader_more.

(** X14. The loader never returns an empty list.  When it returns
    paths there is at least one, and they all come from one source that
    is there and was read, [target_files.txt] or [individual_files.sh]:
    they are, in order, the paths of the stripped lines of that source
    that are taken as paths and name a regular file.  So each returned
    path is the path of a stripped, non-blank line of that source for
    which the file check held. *)
Theorem loader_returns_checked_paths fs paths :
  outcome (load_individual_files_from_file fs) = Ok (Some paths) ->
  paths <> []
  /\ exists (script : bool) text,
       fs_exists fs (if script then INDIVIDUAL_FILES_SCRIPT
                     else TARGET_FILES_FILE) = true
       /\ read_text fs (if script then INDIVIDUAL_FILES_SCRIPT
                        else TARGET_FILES_FILE) = inl text
       /\ paths = map parse (List.filter (fs_isfile fs)
                               (candidates script (readlines text)))
       /\ forall p, p ∈ paths ->
            exists line,
              line ∈ readlines text
              /\ p = parse (strip line)
              /\ strip line <> ""
              /\ fs_isfile fs (strip line) = true
              /\ (script = true -> startswith (strip line) "#" = false).
Proof.
  intros Hrun.
  assert (forall script lines p,
             p ∈ valid_paths fs (candidates script lines) ->
             exists line,
               line ∈ lines /\ p = parse (strip line) /\ strip line <> ""
               /\ fs_isfile fs (strip line) = true
               /\ (script = true -> startswith (strip line) "#" = false))
    as Hvalid.
  { intros script lines p (x & Hx & -> & Hfile)%elem_of_valid_paths.
    apply elem_of_candidates in Hx as (line & Hline & -> & Hne & Hhash).
    by exists line. }
  assert (forall script src lines,
             source fs src lines ->
             valid_paths fs (candidates script lines) <> [] ->
             fs_exists fs src = true
             /\ exists text, read_text fs src = inl text /\ lines = readlines text)
    as Hthere.
  { intros script src lines Hsrc Hne. unfold source in Hsrc.
    destruct (fs_exists fs src); [done|]. subst lines. by destruct Hne. }
  destruct (source_or_unreadable fs TARGET_FILES_FILE)
    as [[linesA HA]|(Hex & msg & Hread)].
  2:{ unfold load_individual_files_from_file, open_lines in Hrun.
      by rewrite Hex, Hread in Hrun. }
  rewrite (load_outcome_from_target fs linesA HA) in Hrun.
  destruct (valid_paths fs (candidates false linesA)) as [|a validA] eqn:HvA.
  - destruct (source_or_unreadable fs INDIVIDUAL_FILES_SCRIPT)
      as [[linesB HB]|(Hex & msg & Hread)].
    2:{ unfold load_from_script, open_lines in Hrun.
        by rewrite Hex, Hread in Hrun. }
    rewrite (load_from_script_spec fs linesB HB) in Hrun.
    destruct (valid_paths fs (candidates true linesB)) as [|b validB] eqn:HvB;
      [done|].
    injection Hrun as <-. split; [done|].
    destruct (Hthere true _ linesB HB) as (Hex & text & Hread & ->);
      [by rewrite HvB|].
    exists true, text. split; [done|]. split; [done|]. split; [by rewrite <- HvB|].
    intros p Hp. rewrite <- HvB in Hp. by apply Hvalid.
  - injection Hrun as <-. split; [done|].
    destruct (Hthere false _ linesA HA) as (Hex & text & Hread & ->);
      [by rewrite HvA|].
    exists false, text. split; [done|]. split; [done|]. split; [by rewrite <- HvA|].
    intros p Hp. rewrite <- HvA in Hp. by apply Hvalid.
Qed.

Lemma loader_returns_checked_paths_witness :
  outcome (load_individual_files_from_file loader_fs) =
    Ok (Some [parse "a.txt"; parse "b.txt"])
  /\ [parse "a.txt"; parse "b.txt"] <> []
  /\ exists (script : bool) text,
       read_text loader_fs (if script then INDIVIDUAL_FILES_SCRIPT
                            else TARGET_FILES_FILE) = inl text
       /\ [parse "a.txt"; parse "b.txt"] =
            map parse (List.filter (fs_isfile loader_fs)
                         (candidates script (readlines text))).
Proof.
  assert (outcome (load_individual_files_from_file loader_fs) =
            Ok (Some [parse "a.txt"; parse "b.txt"])) as Hrun by reflexivity.
  split; [exact Hrun|].
  destruct (loader_returns_checked_paths loader_fs _ Hrun)
    as (Hne & script & text & _ & Hread & Hpaths & _).
  split; [exact Hne|]. by exists script, text.
Defined.

Section script_facts.

Lemma terminated_app xs ys : terminated (xs ++ ys) = terminated xs ++ terminated ys.
Proof.
  induction xs as [|x xs IH]; [done|]. cbn [app terminated].
  by rewrite IH, !append_assoc.
Qed.

Lemma script_written files acc :
  fold_left (fun written file_path => written ++ (str file_path ++ nl)) files acc
  = acc ++ terminated (map str files).
Proof.
  revert acc. induction files as [|f files IH]; intros acc; cbn [fold_left map terminated].
  - by rewrite append_nil_r.
  - by rewrite IH, !append_assoc.
Qed.

Lemma candidates_app script xs ys :
  candidates script (xs ++ ys) = (candidates script xs ++ candidates script ys)%list.
Proof. unfold candidates. by rewrite map_app, List.filter_app. Qed.

Lemma candidates_written names :
  Forall (fun x => well_kept x /\ startswith x "#" = false) names ->
  candidates true (map (fun p => p ++ nl) names) = names.
Proof.
  induction 1 as [|x names [(Hs & Hne & _) Hhash] _ IH]; [done|].
  cbn [map]. rewrite candidates_cons. unfold nl at 1 2 3.
  rewrite strip_snoc_space by done. rewrite Hs, Hhash.
  apply nonempty_true in Hne. rewrite Hne. cbn [andb negb]. by rewrite IH.
Qed.

End script_facts.

(** X15. The script that one run writes is the list that the next run
    loads.  When [target_files.txt] is absent, the script can be
    written, and every path is well formed, names a regular file and
    has a string that is not empty, has no white space at either end,
    holds no line feed or carriage return and does not start with a
    hash, then [save_individual_files_script] writes the header and one
    path per line, and the loader run on the result returns the very
    same list (none for the empty list). *)
Theorem script_round_trip fs files :
  fs_open_w fs INDIVIDUAL_FILES_SCRIPT = None ->
  fs_exists fs TARGET_FILES_FILE = false ->
  Forall (fun f => wf_path f /\ well_kept (str f)
                   /\ startswith (str f) "#" = false
                   /\ fs_isfile fs (str f) = true) files ->
  exists fs',
    outcome (save_individual_files_script files fs) = Ok fs'
    /\ fs_data fs' INDIVIDUAL_FILES_SCRIPT =
         inl (terminated (script_header ++ map str files))
    /\ outcome (load_individual_files_from_file fs') =
         Ok (match files with [] => None | _ :: _ => Some files end).
Proof.
  intros Hw HA Hfiles.
  unfold save_individual_files_script. rewrite Hw, bind_print.
  cbn [outcome snd ret]. eexists. split; [reflexivity|].
  rewrite script_written.
  assert ((("" ++ ("#!/bin/bash" ++ nl))
           ++ ("# Script containing file paths used for prompt generation." ++ nl))
          ++ ("# You can use this file as input for future runs." ++ nl ++ nl)
          = terminated script_header) as -> by reflexivity.
  rewrite <- terminated_app.
  set (written := terminated (script_header ++ map str files)).
  set (fs' := write_text fs INDIVIDUAL_FILES_SCRIPT written).
  assert (fs_data fs' INDIVIDUAL_FILES_SCRIPT = inl written) as Hdata.
  { unfold fs'. cbn [fs_data write_text]. by rewrite String.eqb_refl. }
  split; [exact Hdata|].
  assert (source fs' TARGET_FILES_FILE []) as HsrcA.
  { unfold source, fs'. cbn [fs_exists write_text].
    change (String.eqb TARGET_FILES_FILE INDIVIDUAL_FILES_SCRIPT) with false.
    by rewrite HA. }
  rewrite (load_outcome_from_target fs' [] HsrcA).
  change (valid_paths fs' (candidates false [])) with (@nil Path).
  assert (Forall (fun p => mem LF p = false) (script_header ++ map str files))
    as HLF.
  { apply Forall_app. split; [by repeat constructor|].
    apply Forall_fmap. eapply Forall_impl; [exact Hfiles|].
    by intros f (_ & (_ & _ & ? & _) & _). }
  assert (Forall (fun p => mem CR p = false) (script_header ++ map str files))
    as HCR.
  { apply Forall_app. split; [by repeat constructor|].
    apply Forall_fmap. eapply Forall_impl; [exact Hfiles|].
    by intros f (_ & (_ & _ & _ & ?) & _). }
  assert (source fs' INDIVIDUAL_FILES_SCRIPT
            (map (fun p => p ++ nl) (script_header ++ map str files))) as HsrcB.
  { unfold source. unfold fs' at 1. cbn [fs_exists write_text].
    rewrite String.eqb_refl. exists written. unfold read_text. rewrite Hdata.
    unfold written. rewrite translate_newlines_id by (by apply mem_terminated).
    split; [done|]. symmetry. by apply readlines_terminated. }
  rewrite (load_from_script_spec fs' _ HsrcB).
  rewrite map_app, candidates_app.
  change (candidates true (map (fun p => p ++ nl) script_header)) with (@nil string).
  rewrite app_nil_l, candidates_written.
  2:{ apply Forall_fmap. eapply Forall_impl; [exact Hfiles|].
      by intros f (_ & ? & ? & _). }
  assert (forall text names,
             Forall (fun f => wf_path f /\ well_kept (str f)
                              /\ startswith (str f) "#" = false
                              /\ fs_isfile fs (str f) = true) names ->
             valid_paths (write_text fs INDIVIDUAL_FILES_SCRIPT text)
               (map str names) = names) as Hkept.
  { intros text names Hnames.
    induction Hnames as [|f names (Hwf & _ & _ & Hfile) _ IH]; [done|].
    cbn [map]. rewrite valid_paths_cons.
    cbn [fs_isfile write_text]. rewrite Hfile.
    destruct (String.eqb _ _); by rewrite parse_str, IH. }
  unfold fs'. rewrite (Hkept written files Hfiles).
  by destruct files.
Qed.

Lemma script_round_trip_witness :
  let files := [parse "a.txt"; parse "b.txt"] in
  fs_open_w session_fs INDIVIDUAL_FILES_SCRIPT = None
  /\ fs_exists session_fs TARGET_FILES_FILE = false
  /\ exists fs',
       outcome (save_individual_files_script files session_fs) = Ok fs'
       /\ outcome (load_individual_files_from_file fs') = Ok (Some files).
Proof.
  intros files. split; [reflexivity|]. split; [reflexivity|].
  destruct (script_round_trip session_fs files eq_refl eq_refl)
    as (fs' & Hsave & _ & Hload).
  - repeat constructor; (by right) || discriminate.
  - by exists fs'.
Defined.

(** ** The file collection loop of individual mode *)

(** X16. The collection loop of [main] reads up to the first line that
    is [done] once stripped and put in lower case.  It returns the
    paths it was given followed, in order, by the paths of the stripped
    lines that name a regular file, leaves the later lines unread, and
    prints a warning for every other line read, a blank one
    included. *)
Theorem collect_until_done fs individual_files before line rest :
  Forall (fun l => lower (strip l) <> "done") before ->
  lower (strip line) = "done" ->
  snd (collect_individual_files fs individual_files (before ++ line :: rest)) =
    Returned
      (individual_files
       ++ map parse (List.filter (fs_isfile fs) (map strip before)))%list
      rest
  /\ forall l, l ∈ before -> fs_isfile fs (strip l) = false ->
       retry_warning (strip l)
         ∈ fst (collect_individual_files fs individual_files
                  (before ++ line :: rest)).
Proof.
  intros Hbefore Hline. apply String.eqb_eq in Hline.
  revert individual_files.
  induction Hbefore as [|l before Hl%String.eqb_neq _ IH]; intros acc.
  - cbn [app collect_individual_files]. rewrite Hline.
    cbn [map List.filter snd]. rewrite app_nil_r.
    split; [done | by intros l ?%elem_of_nil].
  - cbn [app collect_individual_files map List.filter]. rewrite Hl.
    destruct (fs_isfile fs (strip l)) eqn:Hfile; cbn [negb].
    + destruct (IH (acc ++ [parse (strip l)])%list) as [Hres Hwarn].
      rewrite written_then_snd. split.
      * rewrite Hres. cbn [map]. by rewrite <- app_assoc.
      * intros l' [->|Hin]%elem_of_cons Hl'; [congruence|].
        unfold written_then. cbn [fst]. apply elem_of_app. right.
        by apply Hwarn.
    + destruct (IH acc) as [Hres Hwarn].
      rewrite written_then_snd. split; [done|].
      intros l' [->|Hin]%elem_of_cons Hl'; unfold written_then; cbn [fst].
      * apply elem_of_app. left. by right; left.
      * apply elem_of_app. right. by apply Hwarn.
Qed.

Lemma collect_until_done_witness :
  Forall (fun l => lower (strip l) <> "done") ["a.txt"; ""; "nope"; " b.txt "]
  /\ lower (strip "Done") = "done"
  /\ snd (collect_individual_files session_fs []
            (["a.txt"; ""; "nope"; " b.txt "] ++ "Done" :: ["x"])) =
       Returned [parse "a.txt"; parse "b.txt"] ["x"].
Proof.
  assert (Forall (fun l => lower (strip l) <> "done") ["a.txt"; ""; "nope"; " b.txt "])
    as Hbefore by (repeat constructor; discriminate).
  split; [exact Hbefore|]. split; [reflexivity|].
  exact (proj1 (collect_until_done session_fs [] _ "Done" ["x"] Hbefore eq_refl)).
Defined.
